(** * web-serial: the stream ingestion and transmission engine

    A shallow embedding of the serial terminal's core: the hex converters
    ([utils/converters]), the log store with its merge and eviction policy
    ([addLog]), the frequency meter, the connection handlers and the two
    send paths ([sendData], [handleFileSend]) of the [App] component.

    Conventions.
    - A [Uint8Array] is a [list byte].
    - A JavaScript string is a [string]; a character outside ASCII is held
      as its UTF-8 bytes.  The code only ever tests characters against the
      hex digits and the line feed, concatenates, and measures parity of a
      string made of hex digits, and none of these tell the two
      representations apart.
    - A JavaScript number that is an index or a length is a [nat] or a [Z];
      the one floating-point computation (the progress percentage) is done
      in IEEE binary64 with the Standard Library's [SpecFloat]. *)

From Stdlib Require Import ZArith NArith List String Ascii Lia Bool Arith.
From Stdlib.Strings Require Import Byte.
From Stdlib Require Import HexadecimalString DecimalString SpecFloat.
From Stdlib Require Import Sorted FinFun.
Import ListNotations.


(** ** JavaScript library functions used by the code *)

Module Js.

(** A thrown [Error] carries its message. *)
Inductive exn : Type := Error (message : string).

Definition message (e : exn) : string := let (m) := e in m.

(** A computation that returns or throws. *)
Inductive result (A : Type) : Type :=
| Ok (v : A)
| Throw (e : exn).
Arguments Ok {A} v.
Arguments Throw {A} e.

(** The [TypeError] with which [cancel] rejects on a reader that has
    released its stream (Streams standard; the message is Chromium's,
    and nothing in the page reads it). *)
Definition released_reader_error : exn :=
  Error "This readable stream reader has been released and cannot be used to cancel its previous owner stream".

(** Relative index of [slice]: negative counts from the end, and the
    result is clamped to [0, len]. *)
Definition rel_index (len : nat) (i : Z) : nat :=
  if (i <? 0)%Z then Z.to_nat (Z.max (Z.of_nat len + i) 0)
  else Nat.min (Z.to_nat i) len.

(** [arr.slice(start)] *)
Definition slice_from {A : Type} (start : Z) (arr : list A) : list A :=
  skipn (rel_index (List.length arr) start) arr.

(** [arr.slice(start, end)] *)
Definition slice {A : Type} (start stop : Z) (arr : list A) : list A :=
  let k := rel_index (List.length arr) start in
  let final := rel_index (List.length arr) stop in
  firstn (final - k) (skipn k arr).

(** [s.padStart(n, c)] for a one-character filler. *)
Definition padStart (n : nat) (c : ascii) (s : string) : string :=
  (string_of_list_ascii (repeat c (n - String.length s)) ++ s)%string.

Definition upper_char (c : ascii) : ascii :=
  let n := nat_of_ascii c in
  if (97 <=? n) && (n <=? 122) then ascii_of_nat (n - 32) else c.

(** [s.toUpperCase()] *)
Fixpoint toUpperCase (s : string) : string :=
  match s with
  | EmptyString => EmptyString
  | String c r => String (upper_char c) (toUpperCase r)
  end.

(** [n.toString(16)]: lower-case digits, no leading zero. *)
Definition toString16 (n : N) : string :=
  HexadecimalString.NilZero.string_of_uint (N.to_hex_uint n).

(** [n.toString()] for a natural number. *)
Definition toString10 (n : nat) : string :=
  DecimalString.NilZero.string_of_uint (Nat.to_uint n).

(** Value of a hexadecimal digit, [None] for any other character. *)
Definition hex_value (c : ascii) : option N :=
  let n := N_of_ascii c in
  if (48 <=? n)%N && (n <=? 57)%N then Some (n - 48)%N
  else if (65 <=? n)%N && (n <=? 70)%N then Some (n - 55)%N
  else if (97 <=? n)%N && (n <=? 102)%N then Some (n - 87)%N
  else None.

(** The character class [[0-9A-Fa-f]]. *)
Definition is_hex_digit (c : ascii) : bool :=
  match hex_value c with Some _ => true | None => false end.

(** The digits read by [parseInt(s, 16)]: the longest prefix of hex
    digits, accumulated from the left. *)
Fixpoint parse_digits16 (acc : N) (s : string) : N :=
  match s with
  | EmptyString => acc
  | String c r =>
      match hex_value c with
      | Some d => parse_digits16 (16 * acc + d)%N r
      | None => acc
      end
  end.

(** [parseInt(s, 16)] on a string free of blanks, sign and [0x] prefix;
    [None] is [NaN]. *)
Definition parseInt16 (s : string) : option N :=
  match s with
  | EmptyString => None
  | String c _ =>
      if is_hex_digit c then Some (parse_digits16 0 s) else None
  end.

(** Storing a number into a [Uint8Array] cell: [NaN] becomes 0, an
    integer is reduced modulo 256. *)
Definition to_uint8 (v : option N) : byte :=
  match v with
  | None => x00
  | Some n => match Byte.of_N (n mod 256) with Some b => b | None => x00 end
  end.

(** [(text.match(/\n/g) || []).length] *)
Fixpoint count_newlines (s : string) : nat :=
  match s with
  | EmptyString => 0
  | String c r =>
      (if Ascii.eqb c "010"%char then 1 else 0) + count_newlines r
  end.

(** IEEE binary64. *)
Definition prec : Z := 53.
Definition emax : Z := 1024.

Definition number : Type := spec_float.

Definition of_int (n : Z) : number := binary_normalize prec emax n 0 false.
Definition div (x y : number) : number := SFdiv prec emax x y.
Definition mul (x y : number) : number := SFmul prec emax x y.

(** [Math.round(x)]: the integer nearest to [x], ties towards +infinity,
    a negative [x] that rounds to zero giving [-0]; a [NaN], an infinity
    or a zero is returned as it is, and so is a finite [m * 2^e] with
    [e >= 0], which is an integer. *)
Definition Math_round (x : number) : number :=
  match x with
  | S754_finite s m e =>
      let v := if s then Z.neg m else Z.pos m in
      if (0 <=? e)%Z then x
      else
        let n := ((2 * v + 2 ^ (- e)) / 2 ^ (- e + 1))%Z in
        if s && (n =? 0)%Z then S754_zero true else of_int n
  | _ => x
  end.

End Js.

(** ** utils/converters *)

Module Converters.
Import Js.

Definition hex_of_byte (b : byte) : string :=
  toUpperCase (padStart 2 "0"%char (toString16 (Byte.to_N b))).

Definition uint8ArrayToHex (arr : list byte) : string :=
  String.concat " " (map hex_of_byte arr).

(** [hex.replace(/[^0-9A-Fa-f]/g, '')] *)
Fixpoint strip_non_hex (s : string) : string :=
  match s with
  | EmptyString => EmptyString
  | String c r =>
      if is_hex_digit c then String c (strip_non_hex r) else strip_non_hex r
  end.

Definition invalid_hex_message : string := "无效的十六进制字符串".

Definition hexToUint8Array (hex : string) : result (list byte) :=
  let cleanHex := strip_non_hex hex in
  if negb (String.length cleanHex mod 2 =? 0) then
    Throw (Error invalid_hex_message)
  else
    Ok (map (fun k => to_uint8 (parseInt16 (substring (2 * k) 2 cleanHex)))
            (seq 0 (String.length cleanHex / 2))).

(** [new TextEncoder().encode(str)]: the UTF-8 bytes of the string. *)
Definition stringToUint8Array (str : string) : list byte :=
  list_byte_of_string str.

End Converters.

(** ** types *)

Module Types.

Inductive LogType : Type := rx | tx | info | error.

Definition is_rx (t : LogType) : bool :=
  match t with rx => true | _ => false end.

(** Modelled from the spec: the declaration of [LogEntry] (types.ts) is
    not among the sources.  The fields are the five that [addLog] writes
    ([id], [timestamp], [type], [data], [text]) and the [byteCount] that
    the spec lists and the terminal's status bar reads.  An object
    literal that leaves a property out has it [undefined]: [None]. *)
Record LogEntry : Type := mkLogEntry {
  id : string;
  timestamp : Z;
  type : LogType;
  data : list byte;
  text : string;
  byteCount : option nat
}.

Inductive DisplayMode : Type := Text | Hex.

(** Modelled from the spec: the transfer variants of types.ts; only [Raw]
    appears in the sources and [handleFileSend] never reads the mode. *)
Inductive FileSendMode : Type := Raw | XModem | YModem.

(** A stream reader as [readerRef] sees it: it holds the lock of the
    port's inbound stream, or it has given the lock back
    ([reader.releaseLock()]) and is of no further use. *)
Inductive Reader : Type := Locked | Released.

Record SerialPort : Type := mkPort {
  writable : bool   (* [port.writable] is not null *)
}.

Record File : Type := mkFile {
  name : string;
  contents : list byte   (* what [file.arrayBuffer()] resolves to *)
}.

Record FileSendOptions : Type := mkOptions {
  mode : FileSendMode;
  throttleBytes : Z;
  throttleMs : Z
}.

End Types.

(** ** The App component *)

Module App.
Import Js Types Converters.

(** The component's state cells ([useState]), its refs ([useRef]) and the
    two things of the world the handlers touch: the writer lock of the
    port's outbound stream and the count of values drawn so far from
    [Math.random] and [new Date]. *)
Record State : Type := mkState {
  port : option SerialPort;
  isConnected : bool;
  isAutoLineBreak : bool;
  isPaused : bool;
  logs : list LogEntry;
  lineFrequency : nat;
  readerRef : option Reader;      (* [None] is [null] *)
  keepReadingRef : bool;
  isPausedRef : bool;
  newlineCountRef : nat;
  lastFrequencyUpdateRef : Z;
  writerLocked : bool;
  writeCalls : nat;               (* calls of [writer.write] so far *)
  draws : nat
}.

Definition initial (now : Z) : State :=
  {| port := None; isConnected := false; isAutoLineBreak := false;
     isPaused := false; logs := []; lineFrequency := 0;
     readerRef := None; keepReadingRef := true; isPausedRef := false;
     newlineCountRef := 0; lastFrequencyUpdateRef := now;
     writerLocked := false; writeCalls := 0; draws := 0 |}.

Definition setPort (v : option SerialPort) (st : State) : State :=
  {| port := v; isConnected := isConnected st;
     isAutoLineBreak := isAutoLineBreak st; isPaused := isPaused st;
     logs := logs st; lineFrequency := lineFrequency st;
     readerRef := readerRef st; keepReadingRef := keepReadingRef st;
     isPausedRef := isPausedRef st; newlineCountRef := newlineCountRef st;
     lastFrequencyUpdateRef := lastFrequencyUpdateRef st;
     writerLocked := writerLocked st; writeCalls := writeCalls st;
     draws := draws st |}.

Definition setIsConnected (v : bool) (st : State) : State :=
  {| port := port st; isConnected := v;
     isAutoLineBreak := isAutoLineBreak st; isPaused := isPaused st;
     logs := logs st; lineFrequency := lineFrequency st;
     readerRef := readerRef st; keepReadingRef := keepReadingRef st;
     isPausedRef := isPausedRef st; newlineCountRef := newlineCountRef st;
     lastFrequencyUpdateRef := lastFrequencyUpdateRef st;
     writerLocked := writerLocked st; writeCalls := writeCalls st;
     draws := draws st |}.

(** [setIsPaused(v)]; the effect that copies [isPaused] into
    [isPausedRef] runs with the render that follows. *)
Definition setIsPaused (v : bool) (st : State) : State :=
  {| port := port st; isConnected := isConnected st;
     isAutoLineBreak := isAutoLineBreak st; isPaused := v;
     logs := logs st; lineFrequency := lineFrequency st;
     readerRef := readerRef st; keepReadingRef := keepReadingRef st;
     isPausedRef := v; newlineCountRef := newlineCountRef st;
     lastFrequencyUpdateRef := lastFrequencyUpdateRef st;
     writerLocked := writerLocked st; writeCalls := writeCalls st;
     draws := draws st |}.

Definition setLogs (v : list LogEntry) (st : State) : State :=
  {| port := port st; isConnected := isConnected st;
     isAutoLineBreak := isAutoLineBreak st; isPaused := isPaused st;
     logs := v; lineFrequency := lineFrequency st;
     readerRef := readerRef st; keepReadingRef := keepReadingRef st;
     isPausedRef := isPausedRef st; newlineCountRef := newlineCountRef st;
     lastFrequencyUpdateRef := lastFrequencyUpdateRef st;
     writerLocked := writerLocked st; writeCalls := writeCalls st;
     draws := draws st |}.

Definition setLineFrequency (v : nat) (st : State) : State :=
  {| port := port st; isConnected := isConnected st;
     isAutoLineBreak := isAutoLineBreak st; isPaused := isPaused st;
     logs := logs st; lineFrequency := v;
     readerRef := readerRef st; keepReadingRef := keepReadingRef st;
     isPausedRef := isPausedRef st; newlineCountRef := newlineCountRef st;
     lastFrequencyUpdateRef := lastFrequencyUpdateRef st;
     writerLocked := writerLocked st; writeCalls := writeCalls st;
     draws := draws st |}.

Definition setReaderRef (v : option Reader) (st : State) : State :=
  {| port := port st; isConnected := isConnected st;
     isAutoLineBreak := isAutoLineBreak st; isPaused := isPaused st;
     logs := logs st; lineFrequency := lineFrequency st;
     readerRef := v; keepReadingRef := keepReadingRef st;
     isPausedRef := isPausedRef st; newlineCountRef := newlineCountRef st;
     lastFrequencyUpdateRef := lastFrequencyUpdateRef st;
     writerLocked := writerLocked st; writeCalls := writeCalls st;
     draws := draws st |}.

Definition setKeepReadingRef (v : bool) (st : State) : State :=
  {| port := port st; isConnected := isConnected st;
     isAutoLineBreak := isAutoLineBreak st; isPaused := isPaused st;
     logs := logs st; lineFrequency := lineFrequency st;
     readerRef := readerRef st; keepReadingRef := v;
     isPausedRef := isPausedRef st; newlineCountRef := newlineCountRef st;
     lastFrequencyUpdateRef := lastFrequencyUpdateRef st;
     writerLocked := writerLocked st; writeCalls := writeCalls st;
     draws := draws st |}.

Definition setNewlineCountRef (v : nat) (st : State) : State :=
  {| port := port st; isConnected := isConnected st;
     isAutoLineBreak := isAutoLineBreak st; isPaused := isPaused st;
     logs := logs st; lineFrequency := lineFrequency st;
     readerRef := readerRef st; keepReadingRef := keepReadingRef st;
     isPausedRef := isPausedRef st; newlineCountRef := v;
     lastFrequencyUpdateRef := lastFrequencyUpdateRef st;
     writerLocked := writerLocked st; writeCalls := writeCalls st;
     draws := draws st |}.

Definition setLastFrequencyUpdateRef (v : Z) (st : State) : State :=
  {| port := port st; isConnected := isConnected st;
     isAutoLineBreak := isAutoLineBreak st; isPaused := isPaused st;
     logs := logs st; lineFrequency := lineFrequency st;
     readerRef := readerRef st; keepReadingRef := keepReadingRef st;
     isPausedRef := isPausedRef st; newlineCountRef := newlineCountRef st;
     lastFrequencyUpdateRef := v;
     writerLocked := writerLocked st; writeCalls := writeCalls st;
     draws := draws st |}.

Definition setWriterLocked (v : bool) (st : State) : State :=
  {| port := port st; isConnected := isConnected st;
     isAutoLineBreak := isAutoLineBreak st; isPaused := isPaused st;
     logs := logs st; lineFrequency := lineFrequency st;
     readerRef := readerRef st; keepReadingRef := keepReadingRef st;
     isPausedRef := isPausedRef st; newlineCountRef := newlineCountRef st;
     lastFrequencyUpdateRef := lastFrequencyUpdateRef st;
     writerLocked := v; writeCalls := writeCalls st;
     draws := draws st |}.

Definition setWriteCalls (v : nat) (st : State) : State :=
  {| port := port st; isConnected := isConnected st;
     isAutoLineBreak := isAutoLineBreak st; isPaused := isPaused st;
     logs := logs st; lineFrequency := lineFrequency st;
     readerRef := readerRef st; keepReadingRef := keepReadingRef st;
     isPausedRef := isPausedRef st; newlineCountRef := newlineCountRef st;
     lastFrequencyUpdateRef := lastFrequencyUpdateRef st;
     writerLocked := writerLocked st; writeCalls := v;
     draws := draws st |}.

Definition setDraws (v : nat) (st : State) : State :=
  {| port := port st; isConnected := isConnected st;
     isAutoLineBreak := isAutoLineBreak st; isPaused := isPaused st;
     logs := logs st; lineFrequency := lineFrequency st;
     readerRef := readerRef st; keepReadingRef := keepReadingRef st;
     isPausedRef := isPausedRef st; newlineCountRef := newlineCountRef st;
     lastFrequencyUpdateRef := lastFrequencyUpdateRef st;
     writerLocked := writerLocked st; writeCalls := writeCalls st;
     draws := v |}.

(** What a handler does to the world outside the component, in order:
    bytes handed to the port's writer, a progress report to the caller,
    a timer wait, and (mirrored from the store) a log entry it added. *)
Inductive Effect : Type :=
| Write (chunk : list byte)
| Progress (percent : number)
| Sleep (ms : Z)
| Logged (type : LogType) (text : string).

(** What the rest of the page does while a handler is suspended (a
    rejection of [disconnect] is nobody's to catch). *)
Inductive Action : Type :=
| TogglePause
| Disconnect
| Incoming (lineBreak : bool) (value : list byte) (textChunk : string)
| FrequencyTick (now : Z).

(** How an [async] handler settles. *)
Inductive Settled : Type := Resolved | Rejected (e : exn).

(** How the chunk loop is left. *)
Inductive LoopExit : Type := Finished | Broke | Threw (e : exn).

(** [arr[i] = v] for an index within the array. *)
Definition assign {A : Type} (i : nat) (v : A) (arr : list A) : list A :=
  firstn i arr ++ v :: skipn (S i) arr.

Section Handlers.

(** The environment: the values [Math.random().toString(36).substr(2, 9)]
    and [new Date()] return at their n-th use, the error (if any) the
    n-th [writer.write] rejects with, and the [TypeError] of
    [getWriter] on a locked stream. *)
Variable random_id : nat -> string.
Variable clock : nat -> Z.
Variable write_fault : nat -> option exn.
Variable locked_error : exn.

Definition countNewlines (type : LogType) (newText : string)
    (st : State) : State :=
  if is_rx type then
    setNewlineCountRef (newlineCountRef st + count_newlines newText) st
  else st.

(** The tail of [addLog]: a new entry at the end, then the cut. *)
Definition appendLog (type : LogType) (data : list byte)
    (newText : string) (st : State) : State :=
  let st := countNewlines type newText st in
  let newLog := {| id := random_id (draws st);
                   timestamp := clock (draws st);
                   type := type;
                   data := data;
                   text := newText;
                   byteCount := None |} in
  let nextLogs := logs st ++ [newLog] in
  setLogs (if 3000 <? List.length nextLogs
           then slice_from (-3000) nextLogs else nextLogs)
          (setDraws (S (draws st)) st).

(** [addLog(type, data, newText)] of a render whose [isAutoLineBreak]
    is [lineBreak]. *)
Definition addLog (lineBreak : bool) (type : LogType) (data : list byte)
    (newText : string) (st : State) : State :=
  let prev := logs st in
  if negb lineBreak && is_rx type && (0 <? List.length prev) then
    match nth_error prev (List.length prev - 1) with
    | Some lastLog =>
        if is_rx (Types.type lastLog) then
          let combinedData := Types.data lastLog ++ data in
          let updatedLogs :=
            assign (List.length prev - 1)
                   {| id := id lastLog;
                      timestamp := timestamp lastLog;
                      type := Types.type lastLog;
                      data := combinedData;
                      text := (text lastLog ++ newText)%string;
                      byteCount := byteCount lastLog |}
                   prev in
          setLogs updatedLogs (countNewlines type newText st)
        else appendLog type data newText st
    | None => appendLog type data newText st
    end
  else appendLog type data newText st.

(** The callback of the one-second interval timer. *)
Definition frequencyTick (now : Z) (st : State) : State :=
  let timeDiff := (now - lastFrequencyUpdateRef st)%Z in
  if (1000 <=? timeDiff)%Z then
    setLastFrequencyUpdateRef now
      (setNewlineCountRef 0 (setLineFrequency (newlineCountRef st) st))
  else st.

(** [disconnect()].  The handler awaits [readerRef.current.cancel()]
    outside any [try]: on a reader that holds its stream the promise
    resolves, on a released one it rejects (with [released_reader_error])
    and the handler stops there, after its first assignment.  An error
    of [port.close()] is caught and dropped. *)
Definition disconnect (st : State) : Settled * State :=
  let lineBreak := isAutoLineBreak st in
  let st := setKeepReadingRef false st in
  match readerRef st with
  | Some Released => (Rejected released_reader_error, st)
  | current =>
      let st := match current with
                | Some _ => setReaderRef None st
                | None => st
                end in
      let st := match port st with
                | Some _ => setPort None st
                | None => st
                end in
      let st := setIsConnected false st in
      let st := setIsPaused false st in
      (Resolved, addLog lineBreak info [] "串口已关闭" st)
  end.

Definition togglePause (st : State) : State :=
  if negb (isConnected st) then st
  else
    let newPausedState := negb (isPaused st) in
    let st' := setIsPaused newPausedState st in
    if newPausedState then
      addLog (isAutoLineBreak st) info [] "串口数据已暂停" st'
    else
      addLog (isAutoLineBreak st) info [] "串口数据已恢复" st'.

(** One turn of [readLoop] that read [value], decoded to [textChunk];
    [lineBreak] is the framing flag of the render that started the
    loop. *)
Definition readLoop_turn (lineBreak : bool) (value : list byte)
    (textChunk : string) (st : State) : State :=
  if negb (isPausedRef st) then addLog lineBreak rx value textChunk st
  else st.

Definition act (a : Action) (st : State) : State :=
  match a with
  | TogglePause => togglePause st
  | Disconnect => snd (disconnect st)
  | Incoming lineBreak value textChunk =>
      readLoop_turn lineBreak value textChunk st
  | FrequencyTick now => frequencyTick now st
  end.

Definition run (acts : list Action) (st : State) : State :=
  fold_left (fun s a => act a s) acts st.

Definition send_paused_message : string := "发送失败: 串口已暂停".
Definition send_failed_prefix : string := "发送失败: ".

Definition sendData (input : string) (mode : DisplayMode) (st : State)
    : State * list Effect :=
  let lineBreak := isAutoLineBreak st in
  match port st with
  | None => (st, [])
  | Some p =>
      if negb (writable p) then (st, [])
      else if isPaused st then
        (addLog lineBreak error [] send_paused_message st,
         [Logged error send_paused_message])
      else
        let failed (e : exn) (st : State) :=
          let msg := (send_failed_prefix ++ message e)%string in
          (addLog lineBreak error [] msg st, [Logged error msg]) in
        match (match mode with
               | Hex => hexToUint8Array input
               | Text => Ok (stringToUint8Array input)
               end) with
        | Throw e => failed e st
        | Ok data =>
            if writerLocked st then failed locked_error st
            else
              let st1 := setWriterLocked true st in
              let st2 := setWriteCalls (S (writeCalls st1)) st1 in
              match write_fault (writeCalls st1) with
              | Some e => failed e st2
              | None =>
                  (addLog lineBreak tx data input
                          (setWriterLocked false st2),
                   [Write data; Logged tx input])
              end
        end
  end.

Definition file_paused_message : string := "文件发送失败: 串口已暂停".
Definition file_aborted_message : string := "文件发送中断: 串口已暂停".
Definition file_failed_prefix : string := "文件发送中断: ".
Definition file_done_message : string := "文件发送完毕".

Definition file_start_message (file : File) (total : nat) : string :=
  ("开始发送文件: " ++ name file ++ " (" ++ toString10 total
     ++ " 字节)")%string.

(** [Math.round((sent / total) * 100)] *)
Definition percent (sent total : nat) : number :=
  Math_round (mul (div (of_int (Z.of_nat sent)) (of_int (Z.of_nat total)))
                  (of_int 100)).

(** The [while (sent < total)] loop of [handleFileSend].  [paused] and
    [lineBreak] are the [isPaused] and [isAutoLineBreak] of the render
    whose handler is running: constants of the closure.  [k] counts the
    chunks written, [sched] tells what others do while the handler
    waits after its k-th write.  The loop of the source need not end
    (a chunk size of zero), so the model runs on [fuel]. *)
Fixpoint sendLoop (fuel : nat) (paused lineBreak : bool)
    (data : list byte) (options : FileSendOptions)
    (sched : nat -> list Action) (sent k : nat) (st : State)
    : option (LoopExit * State * list Effect) :=
  match fuel with
  | O => None
  | S fuel' =>
      let total := List.length data in
      if sent <? total then
        if paused then
          Some (Broke,
                addLog lineBreak error [] file_aborted_message st,
                [Logged error file_aborted_message])
        else
          let chunk :=
            slice (Z.of_nat sent) (Z.of_nat sent + throttleBytes options)
                  data in
          let st1 := setWriteCalls (S (writeCalls st)) st in
          match write_fault (writeCalls st) with
          | Some e => Some (Threw e, st1, [])
          | None =>
              let st2 := run (sched (S k)) st1 in
              let sent' := sent + List.length chunk in
              let wait :=
                if (0 <? throttleMs options)%Z && (sent' <? total)
                then [Sleep (throttleMs options)] else [] in
              match sendLoop fuel' paused lineBreak data options sched
                             sent' (S k) st2 with
              | None => None
              | Some (exit, st3, rest) =>
                  Some (exit, st3,
                        Write chunk :: Progress (percent sent' total)
                          :: wait ++ rest)
              end
          end
      else Some (Finished, st, [])
  end.

Definition handleFileSend (fuel : nat) (file : File)
    (options : FileSendOptions) (sched : nat -> list Action)
    (st : State) : option (Settled * State * list Effect) :=
  let lineBreak := isAutoLineBreak st in
  let paused := isPaused st in
  match port st with
  | None => Some (Resolved, st, [])
  | Some p =>
      if negb (writable p) then Some (Resolved, st, [])
      else if paused then
        Some (Resolved,
              addLog lineBreak error [] file_paused_message st,
              [Logged error file_paused_message])
      else if writerLocked st then Some (Rejected locked_error, st, [])
      else
        let st := setWriterLocked true st in
        let st := run (sched 0) st in
        let data := contents file in
        let total := List.length data in
        let start := file_start_message file total in
        let st := addLog lineBreak info [] start st in
        match sendLoop fuel paused lineBreak data options sched 0 0 st
        with
        | None => None
        | Some (exit, st, trace) =>
            let '(st, tail) :=
              match exit with
              | Threw e =>
                  let msg := (file_failed_prefix ++ message e)%string in
                  (addLog lineBreak error [] msg st, [Logged error msg])
              | _ =>
                  if negb paused then
                    (addLog lineBreak info [] file_done_message st,
                     [Logged info file_done_message])
                  else (st, [])
              end in
            Some (Resolved, setWriterLocked false st,
                  Logged info start :: trace ++ tail)
        end
  end.

End Handlers.

End App.

(** ** The vocabulary of the properties *)

Module HexReading.
Import Js Converters.

(** The number of hex digits of a string, whatever lies between them. *)
Fixpoint hex_digit_count (s : string) : nat :=
  match s with
  | EmptyString => 0
  | String c r => (if is_hex_digit c then 1 else 0) + hex_digit_count r
  end.

(** The pairs of digits of a string, read from the left. *)
Fixpoint pairs (s : string) : list byte :=
  match s with
  | String a (String b r) =>
      to_uint8 (parseInt16 (String a (String b EmptyString))) :: pairs r
  | _ => []
  end.

(** A byte is rendered as two hex digits that read back as the byte. *)
Definition renders_well (b : byte) : bool :=
  match hex_of_byte b with
  | String c1 (String c2 EmptyString) =>
      is_hex_digit c1 && is_hex_digit c2
      && Byte.eqb (to_uint8 (parseInt16 (String c1 (String c2 EmptyString))))
                  b
  | _ => false
  end.




End HexReading.

Module StoreReading.
Import Js Types App.

(** The last [n] elements. *)
Definition keep_last {A : Type} (n : nat) (l : list A) : list A :=
  skipn (List.length l - n) l.

(** The last entry after a chunk was merged into it. *)
Definition merged (l : LogEntry) (d : list byte) (t : string) : LogEntry :=
  {| id := id l; timestamp := timestamp l; type := type l;
     data := data l ++ d; text := (text l ++ t)%string;
     byteCount := byteCount l |}.

(** One call of [addLog]. *)
Record Append : Type := mkAppend {
  framing : bool;
  kind : LogType;
  bytes : list byte;
  fragment : string
}.

Definition join_text (l : list string) : string :=
  fold_right String.append EmptyString l.

(** Does the store end with a Receive entry? *)
Definition ends_with_rx (prev : list LogEntry) : bool :=
  match nth_error prev (List.length prev - 1) with
  | Some l => is_rx (type l)
  | None => false
  end.

Section WithEnvironment.
Variable random_id : nat -> string.
Variable clock : nat -> Z.

Local Abbreviation addLog := (App.addLog random_id clock).
Local Abbreviation appendLog := (App.appendLog random_id clock).

(** The entry [addLog] creates at the n-th draw. *)
Definition fresh (n : nat) (ty : LogType) (d : list byte) (t : string)
    : LogEntry :=
  {| id := random_id n; timestamp := clock n; type := ty;
     data := d; text := t; byteCount := None |}.

Definition apply (o : Append) (st : State) : State :=
  addLog (framing o) (kind o) (bytes o) (fragment o) st.

Definition appends (ops : list Append) (st : State) : State :=
  fold_left (fun s o => apply o s) ops st.

(** [N] Receive appends in a row under one framing flag. *)
Definition receives (lineBreak : bool)
    (chunks : list (list byte * string)) (st : State) : State :=
  fold_left (fun s c => addLog lineBreak rx (fst c) (snd c) s) chunks st.

(** The entries [receives] creates when every chunk gets its own. *)
Fixpoint fresh_run (n : nat) (chunks : list (list byte * string))
    : list LogEntry :=
  match chunks with
  | [] => []
  | c :: r => fresh n rx (fst c) (snd c) :: fresh_run (S n) r
  end.

End WithEnvironment.

End StoreReading.

Module TransferReading.
Import Js Types App.

(** The spec's ConnectionState, read off the two state cells shown in the
    header. *)
Inductive ConnectionState : Type := Disconnected | Connected | ConnectedPaused.

Definition connection (st : State) : ConnectionState :=
  if isConnected st then
    if isPaused st then ConnectedPaused else Connected
  else Disconnected.

(** [port] and [isConnected] are set together by [connect] and
    [disconnect], and the port of an open connection has its outbound
    stream. *)
Definition coherent (st : State) : Prop :=
  match port st with
  | None => isConnected st = false
  | Some p => isConnected st = true /\ writable p = true
  end.

(** A byte sequence cut into consecutive pieces of [n] bytes, the last one
    possibly shorter. *)
Fixpoint chunks_fuel (fuel n : nat) (l : list byte) : list (list byte) :=
  match fuel with
  | O => []
  | S fuel' =>
      match l with
      | [] => []
      | _ :: _ => firstn n l :: chunks_fuel fuel' n (skipn n l)
      end
  end.

Definition chunks_of (n : nat) (l : list byte) : list (list byte) :=
  chunks_fuel (List.length l) n l.

(** What a file send does with the pieces: each is written and followed by
    a progress report; a wait of [ms] (when positive) stands between
    two pieces and nowhere else. *)
Fixpoint schedule_of (ms : Z) (total sent : nat) (chunks : list (list byte))
    : list Effect :=
  match chunks with
  | [] => []
  | c :: rest =>
      let sent' := sent + List.length c in
      Write c :: Progress (percent sent' total)
        :: (match rest with
            | [] => []
            | _ :: _ => if (0 <? ms)%Z then [Sleep ms] else []
            end)
        ++ schedule_of ms total sent' rest
  end.

(** [(sent / total) * 100] in binary64: the number the progress report
    rounds. *)
Definition scaled_ratio (sent total : nat) : number :=
  mul (div (of_int (Z.of_nat sent)) (of_int (Z.of_nat total))) (of_int 100).

(** The spec's [round], said of binary64 numbers and not computed: [p]
    is [x] rounded when [x], a finite [v * 2^e] with [e < 0], lies in
    [n - 1/2 <= x < n + 1/2] and [p] is the integer [n] (with the sign
    of [x] when [n] is zero).  Every other number is an integer, a zero,
    an infinity or [NaN], and is its own rounding. *)
Definition rounded (x p : number) : Prop :=
  match x with
  | S754_finite s m e =>
      if (e <? 0)%Z then
        let v := if s then Z.neg m else Z.pos m in
        exists n : Z,
          ((2 * n - 1) * 2 ^ (- e) <= 2 * v < (2 * n + 1) * 2 ^ (- e))%Z
          /\ p = if s && (n =? 0)%Z then S754_zero true else of_int n
      else p = x
  | _ => p = x
  end.

(** The bytes sent after each piece. *)
Fixpoint sent_after (sent : nat) (chunks : list (list byte)) : list nat :=
  match chunks with
  | [] => []
  | c :: rest => (sent + List.length c) :: sent_after (sent + List.length c) rest
  end.

Fixpoint writes_of (trace : list Effect) : list (list byte) :=
  match trace with
  | [] => []
  | Write c :: r => c :: writes_of r
  | _ :: r => writes_of r
  end.

Fixpoint progress_of (trace : list Effect) : list number :=
  match trace with
  | [] => []
  | Progress p :: r => p :: progress_of r
  | _ :: r => progress_of r
  end.

Fixpoint sleeps_of (trace : list Effect) : list Z :=
  match trace with
  | [] => []
  | Sleep ms :: r => ms :: sleeps_of r
  | _ :: r => sleeps_of r
  end.

Fixpoint logged_of (trace : list Effect) : list (LogType * string) :=
  match trace with
  | [] => []
  | Logged ty msg :: r => (ty, msg) :: logged_of r
  | _ :: r => logged_of r
  end.

(** The entries of kind Error. *)
Definition errors_of (l : list LogEntry) : list LogEntry :=
  filter (fun e => match type e with error => true | _ => false end) l.

(** The cells [addLog] leaves alone. *)
Definition same_connection (st st' : State) : Prop :=
  port st' = port st /\ isConnected st' = isConnected st
  /\ isPaused st' = isPaused st /\ isPausedRef st' = isPausedRef st
  /\ isAutoLineBreak st' = isAutoLineBreak st
  /\ lineFrequency st' = lineFrequency st
  /\ writerLocked st' = writerLocked st /\ writeCalls st' = writeCalls st.

End TransferReading.

(** ** Concrete inputs *)

Module Scenario.
Import Js Types App StoreReading.

Definition random_id (n : nat) : string := ("e" ++ toString10 n)%string.

Definition clock (n : nat) : Z := 1700000000000 + Z.of_nat n.

Definition no_fault (n : nat) : option exn := None.

Definition locked_error : exn := Error "WritableStream is locked".

(** Right after a successful [connect]. *)
Definition connected : State :=
  {| port := Some {| writable := true |}; isConnected := true;
     isAutoLineBreak := false; isPaused := false; logs := [];
     lineFrequency := 0; readerRef := Some Locked; keepReadingRef := true;
     isPausedRef := false; newlineCountRef := 0;
     lastFrequencyUpdateRef := 0; writerLocked := false; writeCalls := 0;
     draws := 0 |}.

Definition note : LogEntry :=
  {| id := "note"; timestamp := 0; type := info; data := [];
     text := "note"; byteCount := None |}.

(** A store filled to its capacity. *)
Definition full : State := setLogs (repeat note 3000) connected.

Definition one_rx : State :=
  setLogs [ {| id := "first"; timestamp := 0; type := rx; data := [x41];
               text := "A"; byteCount := None |} ] connected.

(** Connected and paused. *)
Definition paused : State := setIsPaused true connected.

(** Paused, the port having no outbound stream. *)
Definition paused_no_stream : State :=
  setPort (Some {| writable := false |}) paused.

(** Connected, with five line feeds counted since the last tick and seven
    lines per second published. *)
Definition metered : State :=
  setNewlineCountRef 5 (setLineFrequency 7 connected).

Definition file1000 : File :=
  {| name := "data.bin"; contents := repeat x55 1000 |}.

(** Eight bytes, sent three at a time: 37.5, 75 and 100 percent. *)
Definition file8 : File :=
  {| name := "eight.bin"; contents := repeat x55 8 |}.

Definition by3 : FileSendOptions :=
  {| mode := Raw; throttleBytes := 3; throttleMs := 0 |}.

Definition by100 : FileSendOptions :=
  {| mode := Raw; throttleBytes := 100; throttleMs := 0 |}.

Definition by100_slow : FileSendOptions :=
  {| mode := Raw; throttleBytes := 100; throttleMs := 10 |}.

(** Nobody else does anything. *)
Definition quiet (k : nat) : list Action := [].

(** The user presses Pause while the third chunk is being written. *)
Definition pause_after_3 (k : nat) : list Action :=
  if k =? 3 then [TogglePause] else [].

End Scenario.

(** ** The rest of the App component *)

Module Page.
Import Js Types App Converters.

(** [`${n}`] for an integer. *)
Definition toStringZ (n : Z) : string :=
  DecimalString.NilZero.string_of_int (Z.to_int n).

(** What [connect] meets: a browser without the Web Serial API, a port
    request or an [open] that throws, or an opened port, whose inbound
    stream is there or not. *)
Inductive ConnectAttempt : Type :=
| Unsupported
| Refused (e : exn)
| Opened (p : SerialPort) (readable : bool).

Definition unsupported_alert : string := "您的浏览器不支持 Web Serial API。".
Definition connect_failed_prefix : string := "连接失败: ".

Definition connected_message (baudRate : nat) : string :=
  ("已连接: " ++ toString10 baudRate ++ " bps")%string.

(** The checkbox of the sidebar. *)
Definition setIsAutoLineBreak (v : bool) (st : State) : State :=
  {| port := port st; isConnected := isConnected st;
     isAutoLineBreak := v; isPaused := isPaused st;
     logs := logs st; lineFrequency := lineFrequency st;
     readerRef := readerRef st; keepReadingRef := keepReadingRef st;
     isPausedRef := isPausedRef st; newlineCountRef := newlineCountRef st;
     lastFrequencyUpdateRef := lastFrequencyUpdateRef st;
     writerLocked := writerLocked st; writeCalls := writeCalls st;
     draws := draws st |}.

(** The button that empties the terminal: [setLogs([])]. *)
Definition clearLogs (st : State) : State := setLogs [] st.

Inductive ExportFormat : Type := txt | bin.

Inductive Blob : Type :=
| TextBlob (content : string) (mime : string)
| BinaryBlob (content : list byte) (mime : string).

(** What [exportLogs] hands to the browser to save. *)
Record Download : Type := mkDownload {
  filename : string;
  blob : Blob
}.

Definition export_prefix (t : LogType) : string :=
  match t with
  | rx => "[RX]"
  | tx => "[TX]"
  | _ => "[SYS]"
  end.

Definition newline : string := String "010"%char EmptyString.

Section Handlers.

(** The environment of [App.Handlers], the rendering of a time of day by
    [toLocaleTimeString], and the [RangeError] of a typed array's [set]. *)
Variable random_id : nat -> string.
Variable clock : nat -> Z.
Variable format_time : Z -> string.
Variable range_error : exn.

(** [connect] of a render whose [config.baudRate] is [baudRate]; the
    second component is the text of the alert shown, if any.  The streams
    of a port that [open] has just opened are new, so nobody holds the
    writer.  On success the handler starts [readLoop], which takes the
    reader of the inbound stream before its first wait. *)
Definition connect (baudRate : nat) (attempt : ConnectAttempt) (st : State)
    : State * option string :=
  let lineBreak := isAutoLineBreak st in
  match attempt with
  | Unsupported => (st, Some unsupported_alert)
  | Refused err =>
      (addLog random_id clock lineBreak error []
              (connect_failed_prefix ++ message err) st, None)
  | Opened selectedPort readable =>
      let st := setWriterLocked false st in
      let st := setPort (Some selectedPort) st in
      let st := setIsConnected true st in
      let st := setKeepReadingRef true st in
      let st := addLog random_id clock lineBreak info []
                       (connected_message baudRate) st in
      let st := if readable && keepReadingRef st
                then setReaderRef (Some Locked) st else st in
      (st, None)
  end.

(** What [reader.read()] brings to [readLoop]: a chunk (with the text the
    decoder makes of it), the end of the stream, or an error; after the
    last two, whether the port still has its inbound stream. *)
Inductive ReadResult : Type :=
| ReadChunk (value : list byte) (textChunk : string)
| ReadDone (readable : bool)
| ReadError (e : exn) (readable : bool).

(** [readLoop] at one result of [read], [lineBreak] being the framing
    flag of the render that started the loop.  A chunk is appended unless
    the page is paused.  At the end of the stream, and at an error (which
    goes to the console and nowhere else), the reader is released
    ([readerRef] is not cleared: if it holds the reader, it now holds a
    released one), and a new reader is taken if the port has its stream
    and [keepReadingRef] holds. *)
Definition readLoop_step (lineBreak : bool) (r : ReadResult) (st : State)
    : State :=
  match r with
  | ReadChunk value textChunk =>
      readLoop_turn random_id clock lineBreak value textChunk st
  | ReadDone readable | ReadError _ readable =>
      let st := match readerRef st with
                | Some _ => setReaderRef (Some Released) st
                | None => st
                end in
      if readable && keepReadingRef st
      then setReaderRef (Some Locked) st else st
  end.

Definition readLoop_steps (lineBreak : bool) (script : list ReadResult)
    (st : State) : State :=
  fold_left (fun s r => readLoop_step lineBreak r s) script st.

(** [merged.set(data, offset)] *)
Definition typed_set (data : list byte) (offset : nat) (merged : list byte)
    : result (list byte) :=
  if List.length merged <? offset + List.length data then Throw range_error
  else Ok (firstn offset merged ++ data
             ++ skipn (offset + List.length data) merged).

(** The [forEach] that copies each Receive payload at the running
    offset. *)
Fixpoint copy_all (rxData : list (list byte)) (offset : nat)
    (merged : list byte) : result (list byte) :=
  match rxData with
  | [] => Ok merged
  | data :: rest =>
      match typed_set data offset merged with
      | Throw e => Throw e
      | Ok merged' => copy_all rest (offset + List.length data) merged'
      end
  end.

(** [exportLogs(format)] at the instant [now]: what is saved, if
    anything. *)
Definition exportLogs (format : ExportFormat) (now : Z) (st : State)
    : result (option Download) :=
  if List.length (logs st) =? 0 then Ok None
  else
    let filename := ("serial_log_" ++ toStringZ now)%string in
    match format with
    | txt =>
        let content :=
          String.concat newline
            (map (fun l =>
                    let time := format_time (timestamp l) in
                    let prefix := export_prefix (type l) in
                    (time ++ " " ++ prefix ++ " " ++ text l)%string)
                 (logs st)) in
        Ok (Some {| filename := (filename ++ ".txt")%string;
                    blob := TextBlob content "text/plain" |})
    | bin =>
        let rxData :=
          map data (filter (fun l => is_rx (type l)) (logs st)) in
        let totalLength :=
          fold_left (fun acc curr => acc + List.length curr) rxData 0 in
        match copy_all rxData 0 (repeat x00 totalLength) with
        | Throw e => Throw e
        | Ok merged =>
            Ok (Some {| filename := (filename ++ ".bin")%string;
                        blob := BinaryBlob merged
                                  "application/octet-stream" |})
        end
    end.

End Handlers.

End Page.

(** ** components/Terminal *)

Module TerminalView.
Import Js Types Converters.

Definition nan : number := S754_nan.
Definition add (x y : number) : number := SFadd prec emax x y.

(** [l.byteCount] as an operand of [+]: a property that is not there is
    [undefined], which converts to [NaN]. *)
Definition byteCount_number (l : LogEntry) : number :=
  match byteCount l with
  | Some n => of_int (Z.of_nat n)
  | None => nan
  end.

(** [logs.filter(l => l.type === t).reduce((sum, l) => sum + l.byteCount, 0)] *)
Definition byte_total (t : LogType) (logs : list LogEntry) : number :=
  fold_left (fun sum l => add sum (byteCount_number l))
    (filter (fun l => match type l, t with
                      | rx, rx | tx, tx | info, info | error, error => true
                      | _, _ => false
                      end) logs)
    (of_int 0).

(** The status bar: number of rows, bytes received, bytes sent. *)
Definition total_rows (logs : list LogEntry) : nat := List.length logs.
Definition received_total (logs : list LogEntry) : number := byte_total rx logs.
Definition sent_total (logs : list LogEntry) : number := byte_total tx logs.

Definition row_tag (t : LogType) : string :=
  match t with
  | rx => "RX"
  | tx => "TX"
  | _ => "SYS"
  end.

(** The text of a row when every packet has its own row. *)
Definition row_text (displayMode : DisplayMode) (log : LogEntry) : string :=
  match displayMode, type log with
  | Hex, rx | Hex, tx => uint8ArrayToHex (data log)
  | _, _ => text log
  end.

Definition status_prefix : string := "串口状态: ".

(** The text of an entry's span in the raw stream. *)
Definition span_text (displayMode : DisplayMode) (log : LogEntry) : string :=
  match type log with
  | tx => text log
  | rx =>
      match displayMode with
      | Hex => (uint8ArrayToHex (data log) ++ " ")%string
      | Text => text log
      end
  | _ => (status_prefix ++ text log)%string
  end.

(** The text of the log window. *)
Definition window_text (displayMode : DisplayMode) (isAutoLineBreak : bool)
    (logs : list LogEntry) : list string :=
  if isAutoLineBreak then map (row_text displayMode) logs
  else map (span_text displayMode) logs.

End TerminalView.

(** ** components/Sender *)

Module SenderPanel.
Import Js Types App.

(** The state of the panel. *)
Record Panel : Type := mkPanel {
  input : string;
  mode : DisplayMode;
  isTimerEnabled : bool;
  timerInterval : Z;
  addNewline : bool;
  fileSendMode : FileSendMode;
  throttleBytes : Z;
  throttleMs : Z;
  isSendingFile : bool;
  fileProgress : number
}.

Definition setSending (sending : bool) (progress : number) (p : Panel)
    : Panel :=
  {| input := input p; mode := mode p; isTimerEnabled := isTimerEnabled p;
     timerInterval := timerInterval p; addNewline := addNewline p;
     fileSendMode := fileSendMode p; throttleBytes := throttleBytes p;
     throttleMs := throttleMs p; isSendingFile := sending;
     fileProgress := progress |}.

Definition setAddNewline (v : bool) (p : Panel) : Panel :=
  {| input := input p; mode := mode p; isTimerEnabled := isTimerEnabled p;
     timerInterval := timerInterval p; addNewline := v;
     fileSendMode := fileSendMode p; throttleBytes := throttleBytes p;
     throttleMs := throttleMs p; isSendingFile := isSendingFile p;
     fileProgress := fileProgress p |}.

(** One-byte white space and line terminators: TAB, LF, VT, FF, CR, SP. *)
Definition is_blank1 (c : ascii) : bool :=
  let n := nat_of_ascii c in
  ((9 <=? n) && (n <=? 13)) || (n =? 32).

(** [!s.trim()]: the string is made of white space and line terminators
    only.  Beyond ASCII these are U+00A0, U+1680, U+2000 to U+200A, U+2028,
    U+2029, U+202F, U+205F, U+3000 and U+FEFF, here in UTF-8. *)
Fixpoint trims_to_empty (s : string) : bool :=
  match s with
  | EmptyString => true
  | String c r =>
      if is_blank1 c then trims_to_empty r
      else
        match nat_of_ascii c, r with
        | 194, String c2 r2 =>
            (nat_of_ascii c2 =? 160) && trims_to_empty r2
        | 225, String c2 (String c3 r3) =>
            (nat_of_ascii c2 =? 154) && (nat_of_ascii c3 =? 128)
            && trims_to_empty r3
        | 226, String c2 (String c3 r3) =>
            let n2 := nat_of_ascii c2 in
            let n3 := nat_of_ascii c3 in
            (((n2 =? 128)
              && (((128 <=? n3) && (n3 <=? 138)) || (n3 =? 168)
                  || (n3 =? 169) || (n3 =? 175)))
             || ((n2 =? 129) && (n3 =? 159)))
            && trims_to_empty r3
        | 227, String c2 (String c3 r3) =>
            (nat_of_ascii c2 =? 128) && (nat_of_ascii c3 =? 128)
            && trims_to_empty r3
        | 239, String c2 (String c3 r3) =>
            (nat_of_ascii c2 =? 187) && (nat_of_ascii c3 =? 191)
            && trims_to_empty r3
        | _, _ => false
        end
  end.

Definition terminator : string :=
  String "013"%char (String "010"%char EmptyString).

(** [addNewline ? input + '\r\n' : input] *)
Definition dataToSend (p : Panel) : string :=
  if addNewline p then (input p ++ terminator)%string else input p.

(** The [isConnected] the App passes to the panel. *)
Definition panel_connected (st : State) : bool :=
  isConnected st && negb (isPaused st).

Section Handlers.
Variable random_id : nat -> string.
Variable clock : nat -> Z.
Variable write_fault : nat -> option exn.
Variable locked_error : exn.

Definition handleSendClick (p : Panel) (st : State) : State * list Effect :=
  if trims_to_empty (input p) then (st, [])
  else sendData random_id clock write_fault locked_error
         (dataToSend p) (mode p) st.

(** The send button is [disabled] when the panel is not connected or the
    input is blank. *)
Definition send_disabled (p : Panel) (st : State) : bool :=
  negb (panel_connected st) || trims_to_empty (input p).

(** One firing of the repeat timer, which exists while the timer is
    enabled, the panel is connected and the input is not blank. *)
Definition timerFire (p : Panel) (st : State) : State * list Effect :=
  if isTimerEnabled p && panel_connected st
     && negb (trims_to_empty (input p))
  then sendData random_id clock write_fault locked_error
         (dataToSend p) (mode p) st
  else (st, []).

(** The last progress passed to [setFileProgress]. *)
Fixpoint last_progress (shown : number) (trace : list Effect) : number :=
  match trace with
  | [] => shown
  | Progress percent :: rest => last_progress percent rest
  | _ :: rest => last_progress shown rest
  end.

(** [handleFileChange] for the file chosen, if any.  When [onFileSend]
    rejects, the handler ends at its [await]: [setIsSendingFile(false)] is
    not reached. *)
Definition handleFileChange (fuel : nat) (file : option File)
    (sched : nat -> list Action) (p : Panel) (st : State)
    : option (Panel * State * list Effect) :=
  match file with
  | None => Some (p, st, [])
  | Some file =>
      if negb (panel_connected st) then Some (p, st, [])
      else
        let p := setSending true (of_int 0) p in
        match handleFileSend random_id clock write_fault locked_error fuel
                file {| Types.mode := fileSendMode p;
                        Types.throttleBytes := throttleBytes p;
                        Types.throttleMs := throttleMs p |} sched st with
        | None => None
        | Some (Resolved, st', trace) =>
            Some (setSending false
                    (last_progress (fileProgress p) trace) p, st', trace)
        | Some (Rejected _, st', trace) =>
            Some (setSending true
                    (last_progress (fileProgress p) trace) p, st', trace)
        end
  end.

End Handlers.

End SenderPanel.

(** ** The vocabulary of the further properties *)

Module PageReading.
Import Js Types App Page StoreReading TransferReading.

(** The characters [uint8ArrayToHex] writes. *)
Definition is_upper_hex_or_space (c : ascii) : bool :=
  let n := nat_of_ascii c in
  ((48 <=? n) && (n <=? 57)) || ((65 <=? n) && (n <=? 70)) || (n =? 32).

Fixpoint string_forall (f : ascii -> bool) (s : string) : bool :=
  match s with
  | EmptyString => true
  | String c r => f c && string_forall f r
  end.

(** The Receive payloads of a store, in order. *)
Definition rx_payload (logs : list LogEntry) : list byte :=
  List.concat (map data (filter (fun l => is_rx (type l)) logs)).

(** The Receive text of a store, in order. *)
Definition rx_text (logs : list LogEntry) : string :=
  join_text (map text (filter (fun l => is_rx (type l)) logs)).

(** The bytes and the text that a list of appends receives. *)
Definition received_bytes (ops : list Append) : list byte :=
  List.concat (map bytes (filter (fun o => is_rx (kind o)) ops)).

Definition received_text (ops : list Append) : string :=
  join_text (map fragment (filter (fun o => is_rx (kind o)) ops)).

(** The entries of a store that are not Receive entries. *)
Definition notes_of (logs : list LogEntry) : list LogEntry :=
  filter (fun l => negb (is_rx (type l))) logs.

(** Is there a Receive entry? *)
Definition has_rx (logs : list LogEntry) : bool :=
  existsb (fun l => is_rx (type l)) logs.

Definition has_tx (logs : list LogEntry) : bool :=
  existsb (fun l => match type l with tx => true | _ => false end) logs.

Section WithEnvironment.
Variable random_id : nat -> string.
Variable clock : nat -> Z.
Variable write_fault : nat -> option exn.
Variable locked_error : exn.

(** The entries of the store are those created at the draws [ns], in
    that order. *)
Definition drawn (ns : list nat) (st : State) : Prop :=
  map id (logs st) = map random_id ns
  /\ map timestamp (logs st) = map clock ns
  /\ StronglySorted lt ns
  /\ Forall (fun n => n < draws st) ns.

(** Turns of [readLoop], one per chunk read. *)
Definition incoming (lineBreak : bool) (chunks : list (list byte * string))
    (st : State) : State :=
  fold_left (fun s c => readLoop_turn random_id clock lineBreak
                          (fst c) (snd c) s) chunks st.

(** What can happen on the page. *)
Inductive Event : Type :=
| Connects (baudRate : nat) (attempt : ConnectAttempt)
| Disconnects
| TogglesPause
| Reads (lineBreak : bool) (value : list byte) (textChunk : string)
| Ticks (now : Z)
| Sends (input : string) (mode : DisplayMode)
| SendsFile (fuel : nat) (file : File) (options : FileSendOptions)
            (sched : nat -> list Action)
| Clears
| SetsLineBreak (v : bool).

(** The state after an event; [None] when a file send is out of fuel. *)
Definition step (e : Event) (st : State) : option State :=
  match e with
  | Connects baudRate attempt =>
      Some (fst (connect random_id clock baudRate attempt st))
  | Disconnects => Some (snd (disconnect random_id clock st))
  | TogglesPause => Some (togglePause random_id clock st)
  | Reads lineBreak value textChunk =>
      Some (readLoop_turn random_id clock lineBreak value textChunk st)
  | Ticks now => Some (frequencyTick now st)
  | Sends input mode =>
      Some (fst (sendData random_id clock write_fault locked_error
                   input mode st))
  | SendsFile fuel file options sched =>
      match handleFileSend random_id clock write_fault locked_error
              fuel file options sched st with
      | Some (_, st', _) => Some st'
      | None => None
      end
  | Clears => Some (clearLogs st)
  | SetsLineBreak v => Some (setIsAutoLineBreak v st)
  end.

Fixpoint steps (events : list Event) (st : State) : option State :=
  match events with
  | [] => Some st
  | e :: rest =>
      match step e st with
      | Some st' => steps rest st'
      | None => None
      end
  end.

End WithEnvironment.

(** A port that [open] has just opened has its outbound stream. *)
Definition opens_writable (e : Event) : Prop :=
  match e with
  | Connects _ (Opened p _) => writable p = true
  | _ => True
  end.

(** What every state of the page satisfies. *)
Definition page_ok (st : State) : Prop :=
  coherent st
  /\ isPausedRef st = isPaused st
  /\ (isPaused st = true -> isConnected st = true)
  /\ List.length (logs st) <= 3000
  /\ Forall (fun e => byteCount e = None) (logs st).

(** What a file send does with pieces that are not the last ones: each is
    written, reported and followed by the wait. *)
Fixpoint schedule_before (ms : Z) (total sent : nat)
    (chunks : list (list byte)) : list Effect :=
  match chunks with
  | [] => []
  | c :: rest =>
      let sent' := sent + List.length c in
      Write c :: Progress (percent sent' total)
        :: (if (0 <? ms)%Z then [Sleep ms] else [])
        ++ schedule_before ms total sent' rest
  end.

(** The first [n] writes go through and the next one fails with [e]. *)
Definition fails_at (write_fault : nat -> option exn) (first n : nat)
    (e : exn) : Prop :=
  (forall i, i < n -> write_fault (first + i) = None)
  /\ write_fault (first + n) = Some e.

End PageReading.

(** ** Further concrete inputs *)

Module PageScenario.
Import Js Types App Page SenderPanel StoreReading PageReading.

Definition format_time (t : Z) : string := toStringZ t.

Definition range_error : exn := Error "offset is out of bounds".

Definition device_lost : exn := Error "The device has been lost.".

(** The first write is rejected. *)
Definition fault_first (n : nat) : option exn :=
  if n =? 0 then Some device_lost else None.

(** The fourth write is rejected. *)
Definition fault_fourth (n : nat) : option exn :=
  if n =? 3 then Some device_lost else None.

Definition chunk_a : list byte * string :=
  ([x61; x0a; x62; x0a], String "a" (String "010" (String "b" (String "010" ""))))%char.

Definition chunk_b : list byte * string := ([x63], "c"%string).

Definition entry_a : LogEntry :=
  {| id := "a"; timestamp := 1; type := rx; data := [x01; x02];
     text := "ab"; byteCount := None |}.

Definition entry_b : LogEntry :=
  {| id := "b"; timestamp := 2; type := rx; data := [xff];
     text := "c"; byteCount := None |}.

Definition mixed : list Append :=
  [ mkAppend false rx [x01] "a"; mkAppend false info [] "note";
    mkAppend true rx [x02; x03] "bc"; mkAppend false rx [x04] "d" ].

Definition by0 : FileSendOptions :=
  {| Types.mode := Raw; Types.throttleBytes := 0; Types.throttleMs := 0 |}.

Definition empty_file : File := {| name := "empty.bin"; contents := [] |}.

Definition panel : Panel :=
  {| input := "01 02"; SenderPanel.mode := Hex; isTimerEnabled := false;
     timerInterval := 1000; addNewline := false; fileSendMode := Raw;
     SenderPanel.throttleBytes := 128; SenderPanel.throttleMs := 10;
     isSendingFile := false; fileProgress := of_int 0 |}.

Definition text_panel : Panel :=
  {| input := "AT"; SenderPanel.mode := Text; isTimerEnabled := false;
     timerInterval := 1000; addNewline := true; fileSendMode := Raw;
     SenderPanel.throttleBytes := 128; SenderPanel.throttleMs := 10;
     isSendingFile := false; fileProgress := of_int 0 |}.

(** Connected, the writer held by a send that failed. *)
Definition writer_held : State := setWriterLocked true Scenario.connected.

(** A read loop in trouble: a chunk, a read error after which the port
    still has its stream, a chunk, the end of the stream. *)
Definition troubled : list ReadResult :=
  [ ReadChunk [x68; x69] "hi"; ReadError device_lost true;
    ReadChunk [x21] "!"; ReadDone false ].

(** Connected, one note in the store. *)
Definition noted : State :=
  App.addLog Scenario.random_id Scenario.clock false info [] "note"
    Scenario.connected.

(** The user disconnects while the second chunk is being written. *)
Definition disconnect_after_2 (k : nat) : list Action :=
  if k =? 2 then [Disconnect] else [].

(** Connected, the device gone: the read failed and the port has lost
    its inbound stream. *)
Definition stream_lost : State :=
  readLoop_step Scenario.random_id Scenario.clock false
    (ReadError device_lost false) Scenario.connected.

(** A session of the page. *)
Definition session : list Event :=
  [ Connects (96 * 100) (Opened {| writable := true |} true);
    Reads false [x68; x69] "hi";
    TogglesPause;
    Reads false [x21] "!";
    Sends "01" Hex;
    TogglesPause;
    Sends "0102" Hex;
    Ticks 1500;
    Clears;
    Disconnects ].

End PageScenario.

(** ** Facts about the converters *)

Module ConvertersFacts.
Import Js Converters HexReading.

Example render_three : uint8ArrayToHex [x00; xff; x0a] = "00 FF 0A"%string.
Proof. reflexivity. Qed.

Example parse_tolerant :
  hexToUint8Array "0xFF, zz 1a0" = Ok [x0f; xf1; xa0].
Proof. reflexivity. Qed.

Lemma strip_length (s : string) :
  String.length (strip_non_hex s) = hex_digit_count s.
Proof.
  induction s as [|c r IH]; simpl; [reflexivity|].
  destruct (is_hex_digit c); simpl; congruence.
Qed.

Lemma strip_append (s t : string) :
  strip_non_hex (s ++ t) = (strip_non_hex s ++ strip_non_hex t)%string.
Proof.
  induction s as [|c r IH]; simpl; [reflexivity|].
  destruct (is_hex_digit c); simpl; congruence.
Qed.

(** The loop over [i = 0, 2, 4, ...] reads the pairs. *)
Lemma loop_pairs (n : nat) :
  forall s, String.length s = 2 * n ->
    map (fun k => to_uint8 (parseInt16 (substring (2 * k) 2 s))) (seq 0 n)
    = pairs s.
Proof.
  induction n as [|n IH]; intros s Hlen.
  - destruct s; [reflexivity | discriminate].
  - destruct s as [|a [|b r]]; try (simpl in Hlen; lia).
    cbn [seq map]. rewrite <- seq_shift, map_map.
    change (pairs (String a (String b r)))
      with (to_uint8 (parseInt16 (String a (String b EmptyString)))
              :: pairs r).
    f_equal.
    + simpl. destruct r; reflexivity.
    + rewrite <- (IH r) by (simpl in Hlen; lia).
      apply map_ext. intros k.
      replace (2 * S k) with (S (S (2 * k))) by lia. reflexivity.
Qed.

Lemma hexToUint8Array_even (s : string) (n : nat) :
  hex_digit_count s = 2 * n ->
  hexToUint8Array s = Ok (pairs (strip_non_hex s)).
Proof.
  intros H. unfold hexToUint8Array. rewrite strip_length, H.
  replace (2 * n mod 2) with 0
    by (symmetry; rewrite Nat.mul_comm; apply Nat.Div0.mod_mul).
  cbn [Nat.eqb negb].
  replace (2 * n / 2) with n
    by (symmetry; rewrite Nat.mul_comm; apply Nat.div_mul; lia).
  rewrite loop_pairs; [reflexivity|]. now rewrite strip_length.
Qed.

Lemma hexToUint8Array_odd (s : string) :
  hex_digit_count s mod 2 = 1 ->
  hexToUint8Array s = Throw (Error invalid_hex_message).
Proof.
  intros H. unfold hexToUint8Array. rewrite strip_length, H. reflexivity.
Qed.

Lemma renders_well_all (b : byte) : renders_well b = true.
Proof. destruct b; vm_compute; reflexivity. Qed.

Lemma hex_of_byte_digits (b : byte) :
  exists c1 c2,
    hex_of_byte b = String c1 (String c2 EmptyString)
    /\ is_hex_digit c1 = true /\ is_hex_digit c2 = true
    /\ to_uint8 (parseInt16 (String c1 (String c2 EmptyString))) = b.
Proof.
  pose proof (renders_well_all b) as H. unfold renders_well in H.
  destruct (hex_of_byte b) as [|c1 [|c2 [|]]]; try discriminate.
  apply andb_prop in H as [H H3]. apply andb_prop in H as [H1 H2].
  exists c1, c2. repeat split; try assumption.
  now apply Byte.byte_dec_bl.
Qed.

Lemma strip_rendered (a : list byte) :
  strip_non_hex (uint8ArrayToHex a)
  = fold_right String.append EmptyString (map hex_of_byte a).
Proof.
  unfold uint8ArrayToHex.
  induction a as [|b [|b' r] IH].
  - reflexivity.
  - destruct (hex_of_byte_digits b) as (c1 & c2 & E & H1 & H2 & _).
    cbn [map String.concat fold_right]. rewrite E. simpl.
    now rewrite H1, H2.
  - change (String.concat " " (map hex_of_byte (b :: b' :: r)))
      with (hex_of_byte b ++ " " ++ String.concat " " (map hex_of_byte (b' :: r)))%string.
    rewrite !strip_append, IH.
    destruct (hex_of_byte_digits b) as (c1 & c2 & E & H1 & H2 & _).
    cbn [map fold_right]. rewrite E. simpl. now rewrite H1, H2.
Qed.

Lemma rendered_pairs (a : list byte) :
  let s := fold_right String.append EmptyString (map hex_of_byte a) in
  hex_digit_count s = 2 * List.length a /\ strip_non_hex s = s /\ pairs s = a.
Proof.
  induction a as [|b r (IH1 & IH2 & IH3)]; [repeat split|].
  destruct (hex_of_byte_digits b) as (c1 & c2 & E & H1 & H2 & Hb).
  cbn [map fold_right List.length]. rewrite E.
  cbn [String.append hex_digit_count strip_non_hex pairs].
  rewrite H1, H2, IH1, IH2, IH3, Hb. repeat split. lia.
Qed.

(** C10.  Rendering a byte sequence as hex and parsing the rendered
    string gives the sequence back: for every [a],
    [hexToUint8Array (uint8ArrayToHex a)] returns [a]; in particular it
    does not throw. *)
Theorem hex_roundtrip (a : list byte) :
  hexToUint8Array (uint8ArrayToHex a) = Ok a.
Proof.
  destruct (rendered_pairs a) as (Hcount & Hstrip & Hpairs).
  assert (Hs := strip_rendered a).
  rewrite (hexToUint8Array_even _ (List.length a)).
  - now rewrite Hs, Hpairs.
  - now rewrite <- strip_length, Hs, <- Hcount, <- strip_length, Hstrip.
Qed.

End ConvertersFacts.

(** ** Facts about the log store *)

Module LogStoreFacts.
Import Js Types App StoreReading.

Lemma slice_from_keep_last {A : Type} (l : list A) :
  3000 < List.length l -> slice_from (-3000) l = keep_last 3000 l.
Proof.
  intros H. unfold slice_from, keep_last, rel_index.
  replace (-3000 <? 0)%Z with true by reflexivity.
  f_equal. lia.
Qed.

Lemma keep_last_all {A : Type} (n : nat) (l : list A) :
  List.length l <= n -> keep_last n l = l.
Proof.
  intros H. unfold keep_last.
  replace (List.length l - n) with 0 by lia. reflexivity.
Qed.

Lemma keep_last_length {A : Type} (n : nat) (l : list A) :
  List.length (keep_last n l) = Nat.min n (List.length l).
Proof. unfold keep_last. rewrite length_skipn. lia. Qed.

Lemma nth_error_last {A : Type} (p : list A) (l : A) :
  nth_error (p ++ [l]) (List.length (p ++ [l]) - 1) = Some l.
Proof.
  rewrite length_app. cbn [List.length].
  replace (List.length p + 1 - 1) with (List.length p) by lia.
  now rewrite nth_error_app2, Nat.sub_diag by lia.
Qed.

Lemma assign_last {A : Type} (p : list A) (l v : A) :
  assign (List.length (p ++ [l]) - 1) v (p ++ [l]) = p ++ [v].
Proof.
  unfold assign. rewrite length_app. cbn [List.length].
  replace (List.length p + 1 - 1) with (List.length p) by lia.
  rewrite firstn_app, firstn_all, Nat.sub_diag.
  rewrite skipn_app, skipn_all2 by lia.
  replace (S (List.length p) - List.length p) with 1 by lia.
  cbn [firstn skipn]. now rewrite !app_nil_r.
Qed.

Lemma ends_with_rx_snoc (p : list LogEntry) (l : LogEntry) :
  ends_with_rx (p ++ [l]) = is_rx (type l).
Proof. unfold ends_with_rx. now rewrite nth_error_last. Qed.

Lemma keep_last_app {A : Type} (n : nat) (l m : list A) :
  keep_last n (keep_last n l ++ m) = keep_last n (l ++ m).
Proof.
  unfold keep_last at 1 3. rewrite !length_app, keep_last_length.
  unfold keep_last. rewrite !skipn_app, skipn_skipn, length_skipn.
  f_equal; f_equal; lia.
Qed.

Lemma keep_last_snoc_last {A : Type} (n : nat) (l : list A) (x : A) :
  keep_last (S n) (l ++ [x]) = keep_last n l ++ [x].
Proof.
  unfold keep_last. rewrite length_app, skipn_app. cbn [List.length].
  replace (List.length l + 1 - S n) with (List.length l - n) by lia.
  replace (List.length l - n - List.length l) with 0 by lia.
  reflexivity.
Qed.

Lemma string_app_nil_r (s : string) : (s ++ "")%string = s.
Proof. induction s; simpl; congruence. Qed.

Lemma string_app_assoc (s t u : string) :
  ((s ++ t) ++ u)%string = (s ++ t ++ u)%string.
Proof. induction s; simpl; congruence. Qed.

Lemma merged_nothing (l : LogEntry) : merged l [] "" = l.
Proof.
  destruct l. unfold merged. cbn. now rewrite app_nil_r, string_app_nil_r.
Qed.

Lemma merged_twice (l : LogEntry) d t d' t' :
  merged (merged l d t) d' t' = merged l (d ++ d') (t ++ t')%string.
Proof.
  unfold merged. cbn. now rewrite app_assoc, string_app_assoc.
Qed.

Lemma Forall_skipn {A : Type} (P : A -> Prop) (k : nat) :
  forall l, Forall P l -> Forall P (skipn k l).
Proof.
  induction k as [|k IH]; intros l H; [exact H|].
  destruct l as [|x l]; [constructor|]. apply IH. now inversion H.
Qed.

Section Laws.
Variable random_id : nat -> string.
Variable clock : nat -> Z.

Local Abbreviation addLog := (App.addLog random_id clock).
Local Abbreviation appendLog := (App.appendLog random_id clock).
Local Abbreviation fresh := (fresh random_id clock).

Lemma appendLog_logs ty d t st :
  logs (appendLog ty d t st)
  = keep_last 3000 (logs st ++ [fresh (draws st) ty d t]).
Proof.
  unfold App.appendLog, countNewlines.
  assert (E : forall l : list LogEntry,
             (if 3000 <? List.length l then slice_from (-3000) l else l)
             = keep_last 3000 l).
  { intros l. destruct (Nat.ltb_spec 3000 (List.length l)).
    - now apply slice_from_keep_last.
    - symmetry. now apply keep_last_all. }
  destruct (is_rx ty); cbn [logs setLogs setDraws setNewlineCountRef draws];
    apply E.
Qed.

Lemma appendLog_draws ty d t st :
  draws (appendLog ty d t st) = S (draws st).
Proof. unfold App.appendLog, countNewlines. now destruct (is_rx ty). Qed.

(** When [addLog] merges. *)
Lemma addLog_merge d t st p l :
  logs st = p ++ [l] -> is_rx (type l) = true ->
  logs (addLog false rx d t st) = p ++ [merged l d t]
  /\ draws (addLog false rx d t st) = draws st.
Proof.
  intros E R. unfold App.addLog. rewrite E.
  replace (0 <? List.length (p ++ [l])) with true
    by (symmetry; apply Nat.ltb_lt; rewrite length_app; simpl; lia).
  cbn [negb is_rx andb]. rewrite nth_error_last, R, assign_last.
  split; reflexivity.
Qed.

(** When [addLog] appends. *)
Lemma addLog_append lineBreak ty d t st :
  negb lineBreak && is_rx ty && ends_with_rx (logs st) = false ->
  addLog lineBreak ty d t st = appendLog ty d t st.
Proof.
  unfold App.addLog, ends_with_rx. intros H.
  destruct (negb lineBreak && is_rx ty); [|reflexivity].
  cbn [andb] in *.
  destruct (0 <? List.length (logs st)); [|reflexivity].
  destruct (nth_error (logs st) (List.length (logs st) - 1));
    [|reflexivity].
  now rewrite H.
Qed.

Lemma addLog_cases lineBreak ty d t st :
  (lineBreak = false /\ ty = rx
   /\ exists p l, logs st = p ++ [l] /\ is_rx (type l) = true)
  \/ addLog lineBreak ty d t st = appendLog ty d t st.
Proof.
  destruct (negb lineBreak && is_rx ty && ends_with_rx (logs st)) eqn:E.
  - left. apply andb_prop in E as [E1 E3]. apply andb_prop in E1 as [E1 E2].
    destruct lineBreak; [discriminate|]. destruct ty; try discriminate.
    repeat split.
    destruct (logs st) as [|e r] using rev_ind; [discriminate|].
    rewrite ends_with_rx_snoc in E3. eauto.
  - right. now apply addLog_append.
Qed.

Lemma addLog_length lineBreak ty d t st :
  List.length (logs st) <= 3000 ->
  List.length (logs (addLog lineBreak ty d t st)) <= 3000.
Proof.
  intros H.
  destruct (addLog_cases lineBreak ty d t st)
    as [(-> & -> & p & l & E & R) | ->].
  - destruct (addLog_merge d t st p l E R) as [-> _].
    rewrite E in H. rewrite length_app in *. exact H.
  - rewrite appendLog_logs, keep_last_length. lia.
Qed.

Lemma appends_length ops :
  forall st, List.length (logs st) <= 3000 ->
    List.length (logs (appends random_id clock ops st)) <= 3000.
Proof.
  induction ops as [|o ops IH]; intros st H; [exact H|].
  apply IH. now apply addLog_length.
Qed.

Lemma receives_merge chunks :
  forall st p l, logs st = p ++ [l] -> is_rx (type l) = true ->
    logs (receives random_id clock false chunks st)
    = p ++ [merged l (List.concat (map fst chunks)) (join_text (map snd chunks))]
    /\ draws (receives random_id clock false chunks st) = draws st.
Proof.
  induction chunks as [|[d t] cs IH]; intros st p l E R.
  - cbn. now rewrite merged_nothing.
  - destruct (addLog_merge d t st p l E R) as [E' D'].
    change (receives random_id clock false ((d, t) :: cs) st)
      with (receives random_id clock false cs (addLog false rx d t st)).
    destruct (IH (addLog false rx d t st) p (merged l d t) E' R) as [-> ->].
    now rewrite merged_twice, D'.
Qed.

Lemma addLog_framed ty d t st :
  addLog true ty d t st = appendLog ty d t st.
Proof. now apply addLog_append. Qed.

Lemma receives_framed cs :
  forall c st,
    logs (receives random_id clock true (c :: cs) st)
    = keep_last 3000
        (logs st ++ fresh_run random_id clock (draws st) (c :: cs)).
Proof.
  induction cs as [|c' cs IH]; intros [d t] st.
  - cbn [receives fold_left fresh_run fst snd].
    now rewrite addLog_framed, appendLog_logs.
  - change (receives random_id clock true ((d, t) :: c' :: cs) st)
      with (receives random_id clock true (c' :: cs)
              (addLog true rx d t st)).
    rewrite IH, addLog_framed, appendLog_logs, appendLog_draws.
    rewrite keep_last_app, <- app_assoc. reflexivity.
Qed.

Lemma receives_unframed_new c cs st :
  ends_with_rx (logs st) = false ->
  logs (receives random_id clock false (c :: cs) st)
  = keep_last 3000
      (logs st ++ [fresh (draws st) rx (List.concat (map fst (c :: cs)))
                         (join_text (map snd (c :: cs)))]).
Proof.
  intros H. destruct c as [d t].
  change (receives random_id clock false ((d, t) :: cs) st)
    with (receives random_id clock false cs (addLog false rx d t st)).
  assert (E : logs (addLog false rx d t st)
              = keep_last 2999 (logs st) ++ [fresh (draws st) rx d t]).
  { rewrite addLog_append by (now rewrite H).
    rewrite appendLog_logs. change 3000 with (S 2999).
    apply keep_last_snoc_last. }
  destruct (receives_merge cs _ _ _ E eq_refl) as [-> _].
  change 3000 with (S 2999). rewrite keep_last_snoc_last. reflexivity.
Qed.

Lemma fresh_run_length n chunks :
  List.length (fresh_run random_id clock n chunks) = List.length chunks.
Proof.
  revert n. induction chunks as [|c r IH]; intros n; simpl; congruence.
Qed.

(** C2, as amended.  With framing off, any number of consecutive Receive
    appends into a store whose last entry is a Receive entry add no entry:
    that last entry keeps its id, timestamp and kind, its bytes become
    its former bytes followed by the concatenation of the chunks (so its
    length grows by the sum of the chunk lengths) and its text its former
    text followed by the concatenation of the fragments.  When the store
    is empty or ends with an entry of another kind, [N >= 1] such appends
    leave exactly one new entry, made of the concatenated chunks and
    fragments.  With framing on, [N >= 1] appends create [N] entries, one
    per chunk in order, and the store keeps the last 3000 of the old
    entries followed by the new ones: exactly [N] more entries when that
    fits the capacity. *)
Theorem receive_runs :
  (forall chunks st p l,
     logs st = p ++ [l] -> is_rx (type l) = true ->
     let l' := merged l (List.concat (map fst chunks))
                        (join_text (map snd chunks)) in
     logs (receives random_id clock false chunks st) = p ++ [l']
     /\ List.length (data l')
        = List.length (data l)
          + list_sum (map (fun c => List.length (fst c)) chunks))
  /\ (forall c cs st,
        ends_with_rx (logs st) = false ->
        let e := fresh (draws st) rx (List.concat (map fst (c :: cs)))
                       (join_text (map snd (c :: cs))) in
        logs (receives random_id clock false (c :: cs) st)
        = keep_last 3000 (logs st ++ [e])
        /\ List.length (data e)
           = list_sum (map (fun c => List.length (fst c)) (c :: cs)))
  /\ (forall c cs st,
        let created := fresh_run random_id clock (draws st) (c :: cs) in
        logs (receives random_id clock true (c :: cs) st)
        = keep_last 3000 (logs st ++ created)
        /\ List.length created = List.length (c :: cs)
        /\ (List.length (logs st) + List.length (c :: cs) <= 3000 ->
            logs (receives random_id clock true (c :: cs) st)
            = logs st ++ created)).
Proof.
  assert (Hsum : forall chunks : list (list byte * string),
            List.length (List.concat (map fst chunks))
            = list_sum (map (fun c => List.length (fst c)) chunks)).
  { intros chunks. now rewrite length_concat, map_map. }
  split; [|split].
  - intros chunks st p l E R l'. split.
    + now destruct (receives_merge chunks st p l E R).
    + unfold l', merged. cbn [data]. now rewrite length_app, Hsum.
  - intros c cs st H e. split.
    + now apply receives_unframed_new.
    + apply Hsum.
  - intros c cs st created. split; [|split].
    + apply receives_framed.
    + apply fresh_run_length.
    + intros Hfit. rewrite receives_framed. apply keep_last_all.
      rewrite length_app. fold created.
      unfold created at 1. rewrite fresh_run_length. exact Hfit.
Qed.

Lemma addLog_byteCount lineBreak ty d t st :
  Forall (fun e => byteCount e = None) (logs st) ->
  Forall (fun e => byteCount e = None) (logs (addLog lineBreak ty d t st)).
Proof.
  intros H.
  destruct (addLog_cases lineBreak ty d t st)
    as [(-> & -> & p & l & E & R) | ->].
  - destruct (addLog_merge d t st p l E R) as [-> _].
    rewrite E in H. apply Forall_app in H as [Hp Hl].
    apply Forall_app. split; [exact Hp|].
    constructor; [|constructor]. now inversion Hl.
  - rewrite appendLog_logs. apply Forall_skipn, Forall_app. split; [exact H|].
    constructor; [reflexivity|constructor].
Qed.

(** No entry of a store built by [addLog] has a [byteCount]. *)
Lemma byteCount_never_set ops now :
  Forall (fun e => byteCount e = None)
         (logs (appends random_id clock ops (initial now))).
Proof.
  assert (G : forall st, Forall (fun e => byteCount e = None) (logs st) ->
            Forall (fun e => byteCount e = None)
                   (logs (appends random_id clock ops st))).
  { induction ops as [|o ops IH]; intros st H; [exact H|].
    apply IH. now apply addLog_byteCount. }
  apply G. constructor.
Qed.

(** C9.  An append touches at most the newest entry, and cuts only at
    the front.  The store after [addLog] is the store before without its
    last entry, cut at the front by [k], followed by a tail that is
    exactly one of: the new entry alone (the store was empty); the former
    last entry, untouched, and the new entry after it; or, for a Receive
    chunk under continuous framing after a Receive entry, the former last
    entry with the chunk merged into it (same id, kind and timestamp) and
    nothing cut.  When an entry is created, [k] is what the count exceeds
    3000 by, so nothing is cut below that count and the new entry always
    survives as the last one.  Every older entry that is kept is the same
    record, at its place moved up by [k], in the same order. *)
Theorem addLog_frame lineBreak ty d t st :
  exists k tl,
    logs (addLog lineBreak ty d t st)
    = skipn k (removelast (logs st)) ++ tl
    /\ List.length tl <= 2
    /\ k <= List.length (logs st) + 1 - 3000
    /\ ((logs st = []
         /\ k = 0 /\ tl = [fresh (draws st) ty d t])
        \/ (exists p l,
              logs st = p ++ [l]
              /\ k = List.length (logs st) + 1 - 3000
              /\ k <= List.length p
              /\ tl = [l; fresh (draws st) ty d t])
        \/ (exists p l,
              logs st = p ++ [l]
              /\ lineBreak = false /\ ty = rx /\ is_rx (type l) = true
              /\ k = 0
              /\ tl = [merged l d t]
              /\ id (merged l d t) = id l
              /\ type (merged l d t) = type l
              /\ timestamp (merged l d t) = timestamp l))
    /\ (forall i, S i < List.length (logs st) -> k <= i ->
          nth_error (logs (addLog lineBreak ty d t st)) (i - k)
          = nth_error (logs st) i)
    /\ (forall e, In e (logs (addLog lineBreak ty d t st)) ->
          In e (removelast (logs st)) \/ In e tl).
Proof.
  assert (shape : exists k tl,
            logs (addLog lineBreak ty d t st)
            = skipn k (removelast (logs st)) ++ tl
            /\ List.length tl <= 2
            /\ k <= List.length (logs st) + 1 - 3000
            /\ ((logs st = []
                 /\ k = 0 /\ tl = [fresh (draws st) ty d t])
                \/ (exists p l,
                      logs st = p ++ [l]
                      /\ k = List.length (logs st) + 1 - 3000
                      /\ k <= List.length p
                      /\ tl = [l; fresh (draws st) ty d t])
                \/ (exists p l,
                      logs st = p ++ [l]
                      /\ lineBreak = false /\ ty = rx
                      /\ is_rx (type l) = true
                      /\ k = 0
                      /\ tl = [merged l d t]
                      /\ id (merged l d t) = id l
                      /\ type (merged l d t) = type l
                      /\ timestamp (merged l d t) = timestamp l))).
  { destruct (addLog_cases lineBreak ty d t st)
      as [(-> & -> & p & l & E & R) | ->].
    - destruct (addLog_merge d t st p l E R) as [-> _].
      exists 0, [merged l d t]. rewrite E, removelast_last.
      split; [reflexivity|]. split; [cbn [List.length]; lia|].
      split; [lia|]. right. right. exists p, l. repeat split. exact R.
    - rewrite appendLog_logs. unfold keep_last. rewrite length_app.
      cbn [List.length].
      destruct (logs st) as [|x r] using rev_ind.
      + exists 0, [fresh (draws st) ty d t].
        split; [reflexivity|]. split; [cbn [List.length]; lia|].
        split; [cbn [List.length]; lia|]. left. repeat split.
      + clear IHr. rewrite removelast_last, length_app. cbn [List.length].
        exists (List.length r + 1 + 1 - 3000), [x; fresh (draws st) ty d t].
        split; [|split; [cbn [List.length]; lia|split; [lia|]]].
        * rewrite <- app_assoc, skipn_app. cbn [app]. f_equal.
          replace (List.length r + 1 + 1 - 3000 - List.length r)
            with 0 by lia.
          reflexivity.
        * right. left. exists r, x. repeat split. lia. }
  destruct shape as (k & tl & E & Htl & Hk & Hcase).
  exists k, tl. split; [exact E|]. split; [exact Htl|].
  split; [exact Hk|]. split; [exact Hcase|]. split.
  - intros i Hi Hki. rewrite E.
    assert (Hlen : List.length (removelast (logs st))
                   = List.length (logs st) - 1).
    { rewrite removelast_firstn_len, length_firstn. lia. }
    rewrite nth_error_app1 by (rewrite length_skipn, Hlen; lia).
    rewrite nth_error_skipn, removelast_firstn_len, nth_error_firstn.
    replace (k + (i - k)) with i by lia.
    now replace (i <? Nat.pred (List.length (logs st))) with true
      by (symmetry; apply Nat.ltb_lt; lia).
  - intros e. rewrite E, in_app_iff. intros [H|H]; [left|now right].
    rewrite <- (firstn_skipn k (removelast (logs st))), in_app_iff.
    now right.
Qed.

(** C1.  The store holds at most 3000 entries after every append: the
    bound is kept by any sequence of appends, of any kinds and under
    either framing, from a store within the bound, hence from the empty
    store of a fresh page; and an append that creates an entry in a store
    already holding 3000 or more drops entries from the front so that
    exactly the last 3000 remain. *)
Theorem store_capacity :
  (forall ops st, List.length (logs st) <= 3000 ->
     List.length (logs (appends random_id clock ops st)) <= 3000)
  /\ (forall ops now,
        List.length (logs (appends random_id clock ops (initial now)))
        <= 3000)
  /\ (forall lineBreak ty d t st,
        negb lineBreak && is_rx ty && ends_with_rx (logs st) = false ->
        3000 <= List.length (logs st) ->
        logs (addLog lineBreak ty d t st)
        = skipn (List.length (logs st) + 1 - 3000)
                (logs st ++ [fresh (draws st) ty d t])
        /\ List.length (logs (addLog lineBreak ty d t st)) = 3000).
Proof.
  split; [|split].
  - intros ops st. apply appends_length.
  - intros ops now. apply appends_length. simpl. lia.
  - intros lineBreak ty d t st Hnew Hfull.
    rewrite (addLog_append _ _ _ _ _ Hnew), appendLog_logs.
    split.
    + unfold keep_last. rewrite length_app. reflexivity.
    + rewrite keep_last_length, length_app. cbn [List.length]. lia.
Qed.

End Laws.


(** A full store takes one more entry and stays full. *)
Lemma store_capacity_witness :
  List.length
    (logs (appends Scenario.random_id Scenario.clock
             [mkAppend true rx [x41] "A"] Scenario.full)) <= 3000
  /\ List.length
       (logs (App.addLog Scenario.random_id Scenario.clock
                true rx [x41] "A" Scenario.full)) = 3000.
Proof.
  split.
  - apply (proj1 (store_capacity Scenario.random_id Scenario.clock)).
    apply Nat.leb_le. vm_compute. reflexivity.
  - apply (proj2 (proj2 (store_capacity Scenario.random_id Scenario.clock))).
    + reflexivity.
    + apply Nat.leb_le. vm_compute. reflexivity.
Defined.

(** C2, the claim as worded, at a store that ends with a Receive entry
    holding one byte: one more Receive chunk of one byte leaves a single
    entry, but of two bytes, not the one byte appended. *)
Lemma merged_run_counterexample :
  exists e,
    logs (receives Scenario.random_id Scenario.clock false
            [([x42], "B"%string)] Scenario.one_rx) = [e]
    /\ data e = [x41; x42]
    /\ data e <> List.concat (map fst [([x42], "B"%string)])
    /\ List.length (data e) <> list_sum (map (@List.length byte) [[x42]])
    /\ text e <> join_text (map snd [([x42], "B"%string)]).
Proof.
  eexists. split; [reflexivity|]. cbn. repeat split; discriminate.
Qed.

Lemma receive_runs_witness :
  logs (receives Scenario.random_id Scenario.clock false
          [([x42], "B"%string); ([x43; x44], "CD"%string)] Scenario.one_rx)
  = [ {| id := "first"; timestamp := 0; type := rx;
         data := [x41; x42; x43; x44]; text := "ABCD";
         byteCount := None |} ]
  /\ logs (receives Scenario.random_id Scenario.clock false
             [([x42], "B"%string); ([x43; x44], "CD"%string)]
             Scenario.connected)
     = [ {| id := "e0"; timestamp := 1700000000000; type := rx;
            data := [x42; x43; x44]; text := "BCD"; byteCount := None |} ]
  /\ List.length
       (logs (receives Scenario.random_id Scenario.clock true
                [([x42], "B"%string); ([x43; x44], "CD"%string)]
                Scenario.one_rx)) = 3.
Proof.
  pose proof (receive_runs Scenario.random_id Scenario.clock)
    as (Hmerge & Hnew & Hframed).
  split; [|split].
  - destruct (Hmerge [([x42], "B"%string); ([x43; x44], "CD"%string)]
                     Scenario.one_rx [] _ eq_refl eq_refl) as [-> _].
    reflexivity.
  - destruct (Hnew ([x42], "B"%string) [([x43; x44], "CD"%string)]
                   Scenario.connected eq_refl) as [-> _].
    reflexivity.
  - destruct (Hframed ([x42], "B"%string) [([x43; x44], "CD"%string)]
                      Scenario.one_rx) as (_ & _ & ->).
    + reflexivity.
    + apply Nat.leb_le. reflexivity.
Defined.

(** C7 at a single Receive append of one byte into the empty store: the
    entry stored has one byte of data and no [byteCount]. *)
Theorem byteCount_missing :
  logs (App.addLog Scenario.random_id Scenario.clock false rx [x41] "A"
          (initial 0))
  = [ {| id := "e0"; timestamp := 1700000000000; type := rx;
         data := [x41]; text := "A"; byteCount := None |} ].
Proof. reflexivity. Qed.

End LogStoreFacts.

(** ** Facts about chunking *)

Module ChunkFacts.
Import Js Types App TransferReading.

Lemma slice_chunk (data : list byte) (sent : nat) (size : Z) :
  sent < List.length data -> (0 < size)%Z ->
  slice (Z.of_nat sent) (Z.of_nat sent + size) data
  = firstn (Z.to_nat size) (skipn sent data).
Proof.
  intros Hs Hn. unfold slice, rel_index.
  replace (Z.of_nat sent <? 0)%Z with false by (symmetry; apply Z.ltb_ge; lia).
  replace (Z.of_nat sent + size <? 0)%Z with false
    by (symmetry; apply Z.ltb_ge; lia).
  rewrite Nat2Z.id.
  replace (Nat.min sent (List.length data)) with sent by lia.
  destruct (Nat.le_gt_cases (Z.to_nat size) (List.length data - sent))
    as [Hle|Hgt].
  - f_equal. lia.
  - rewrite !firstn_all2; [reflexivity| |]; rewrite length_skipn; lia.
Qed.

Lemma chunks_fuel_enough (n : nat) :
  0 < n -> forall f1 f2 l,
    List.length l <= f1 -> List.length l <= f2 ->
    chunks_fuel f1 n l = chunks_fuel f2 n l.
Proof.
  intros Hn. induction f1 as [|f1 IH]; intros f2 l H1 H2.
  - destruct l; [|simpl in H1; lia]. now destruct f2.
  - destruct f2 as [|f2].
    + destruct l; [reflexivity|simpl in H2; lia].
    + destruct l as [|x l]; [reflexivity|]. cbn [chunks_fuel]. f_equal.
      apply IH; rewrite length_skipn; cbn [List.length] in *; lia.
Qed.

Lemma chunks_fuel_nil (f n : nat) : chunks_fuel f n [] = [].
Proof. now destruct f. Qed.

Lemma chunks_concat (n : nat) :
  0 < n -> forall f l, List.length l <= f ->
    List.concat (chunks_fuel f n l) = l.
Proof.
  intros Hn. induction f as [|f IH]; intros l H.
  - destruct l; [reflexivity|simpl in H; lia].
  - destruct l as [|x l]; [reflexivity|].
    cbn [chunks_fuel List.concat]. rewrite IH.
    + apply firstn_skipn.
    + rewrite length_skipn. cbn [List.length] in *. lia.
Qed.

Lemma chunks_count (n : nat) :
  0 < n -> forall f l, List.length l <= f ->
    List.length (chunks_fuel f n l) = (List.length l + n - 1) / n.
Proof.
  intros Hn. induction f as [|f IH]; intros l H.
  - destruct l; [|simpl in H; lia]. cbn. symmetry. apply Nat.div_small. lia.
  - destruct l as [|x l].
    + cbn. symmetry. apply Nat.div_small. lia.
    + cbn [chunks_fuel List.length]. rewrite IH
        by (rewrite length_skipn; cbn [List.length] in *; lia).
      rewrite length_skipn. cbn [List.length].
      destruct (Nat.le_gt_cases (S (List.length l)) n) as [Hle|Hgt].
      * replace (S (List.length l) - n + n - 1) with (n - 1) by lia.
        rewrite Nat.div_small by lia.
        apply (Nat.div_unique _ _ 1 (List.length l)); lia.
      * replace (S (List.length l) + n - 1)
          with (S (List.length l) - n + n - 1 + 1 * n) by lia.
        rewrite Nat.div_add by lia. lia.
Qed.

Lemma chunks_sizes (n : nat) :
  0 < n -> forall f l, List.length l <= f ->
    forall c, In c (chunks_fuel f n l) -> 1 <= List.length c <= n.
Proof.
  intros Hn. induction f as [|f IH]; intros l H c Hin.
  - destruct Hin.
  - destruct l as [|x l]; [destruct Hin|].
    cbn [chunks_fuel] in Hin. destruct Hin as [<-|Hin].
    + rewrite length_firstn. cbn [List.length]. lia.
    + apply (IH (skipn n (x :: l))); [|exact Hin].
      rewrite length_skipn. cbn [List.length] in *. lia.
Qed.

Lemma chunks_full (n : nat) :
  0 < n -> forall f l, List.length l <= f ->
    forall i, S i < List.length (chunks_fuel f n l) ->
      List.length (nth i (chunks_fuel f n l) []) = n.
Proof.
  intros Hn. induction f as [|f IH]; intros l H i Hi.
  - simpl in Hi. lia.
  - destruct l as [|x l]; [simpl in Hi; lia|].
    cbn [chunks_fuel] in *. cbn [List.length] in Hi.
    destruct i as [|i].
    + cbn [nth]. rewrite length_firstn.
      destruct (Nat.le_gt_cases (List.length (x :: l)) n) as [Hle|Hgt]; [|lia].
      rewrite skipn_all2, chunks_fuel_nil in Hi by exact Hle.
      simpl in Hi. lia.
    + cbn [nth]. apply IH; [|lia].
      rewrite length_skipn. cbn [List.length] in *. lia.
Qed.

Lemma schedule_writes ms total chunks :
  forall sent, writes_of (schedule_of ms total sent chunks) = chunks.
Proof.
  induction chunks as [|c rest IH]; intros sent; [reflexivity|].
  cbn [schedule_of writes_of]. f_equal.
  destruct rest; [apply IH|].
  destruct (0 <? ms)%Z; cbn [app writes_of]; apply IH.
Qed.

Lemma schedule_progress ms total chunks :
  forall sent,
    progress_of (schedule_of ms total sent chunks)
    = map (fun s => percent s total) (sent_after sent chunks).
Proof.
  induction chunks as [|c rest IH]; intros sent; [reflexivity|].
  cbn [schedule_of progress_of sent_after map]. f_equal.
  destruct rest; [apply IH|].
  destruct (0 <? ms)%Z; cbn [app progress_of]; apply IH.
Qed.

Lemma schedule_sleeps ms total chunks :
  forall sent,
    sleeps_of (schedule_of ms total sent chunks)
    = if (0 <? ms)%Z then repeat ms (List.length chunks - 1) else [].
Proof.
  induction chunks as [|c rest IH]; intros sent.
  - now destruct (0 <? ms)%Z.
  - cbn [schedule_of sleeps_of]. specialize (IH (sent + List.length c)).
    destruct rest as [|c' rest].
    + cbn. now destruct (0 <? ms)%Z.
    + destruct (0 <? ms)%Z; cbn [app sleeps_of]; rewrite IH; [|reflexivity].
      cbn [List.length].
      replace (S (List.length rest) - 1) with (List.length rest) by lia.
      replace (S (S (List.length rest)) - 1) with (S (List.length rest))
        by lia.
      reflexivity.
Qed.

End ChunkFacts.

(** ** Facts about the handlers *)

Module HandlerFacts.
Import Js Types App Converters.
Import HexReading StoreReading TransferReading.
Import ConvertersFacts LogStoreFacts ChunkFacts.

Section Laws.
Variable random_id : nat -> string.
Variable clock : nat -> Z.
Variable write_fault : nat -> option exn.
Variable locked_error : exn.

Local Abbreviation addLog := (App.addLog random_id clock).
Local Abbreviation fresh := (StoreReading.fresh random_id clock).
Local Abbreviation disconnect := (App.disconnect random_id clock).
Local Abbreviation sendData :=
  (App.sendData random_id clock write_fault locked_error).
Local Abbreviation sendLoop := (App.sendLoop random_id clock write_fault).
Local Abbreviation handleFileSend :=
  (App.handleFileSend random_id clock write_fault locked_error).

Lemma countNewlines_keeps ty t st : same_connection st (countNewlines ty t st).
Proof. unfold countNewlines. destruct (is_rx ty); repeat split. Qed.

Lemma setLogs_keeps v st : same_connection st (setLogs v st).
Proof. repeat split. Qed.

Lemma setDraws_keeps v st : same_connection st (setDraws v st).
Proof. repeat split. Qed.

Lemma same_connection_trans st1 st2 st3 :
  same_connection st1 st2 -> same_connection st2 st3 ->
  same_connection st1 st3.
Proof.
  unfold same_connection. intros H1 H2.
  repeat match goal with H : _ /\ _ |- _ => destruct H end.
  repeat split; congruence.
Qed.

Lemma appendLog_keeps ty d t st :
  same_connection st (App.appendLog random_id clock ty d t st).
Proof.
  unfold appendLog.
  eapply same_connection_trans; [apply countNewlines_keeps|].
  eapply same_connection_trans; [apply setDraws_keeps|].
  apply setLogs_keeps.
Qed.

(** [addLog] writes the store, the line-feed counter and the draw count,
    and nothing else. *)
Lemma addLog_keeps lineBreak ty d t st :
  same_connection st (addLog lineBreak ty d t st).
Proof.
  unfold App.addLog.
  destruct (negb lineBreak && is_rx ty && (0 <? List.length (logs st)));
    [|apply appendLog_keeps].
  destruct (nth_error (logs st) (List.length (logs st) - 1)) as [l|];
    [|apply appendLog_keeps].
  destruct (is_rx (type l)); [|apply appendLog_keeps].
  eapply same_connection_trans; [apply countNewlines_keeps|].
  apply setLogs_keeps.
Qed.

(** An entry that is not a Receive chunk never merges and never counts
    line feeds. *)
Lemma addLog_other ty d t lineBreak st :
  is_rx ty = false ->
  logs (addLog lineBreak ty d t st)
  = keep_last 3000 (logs st ++ [fresh (draws st) ty d t])
  /\ newlineCountRef (addLog lineBreak ty d t st) = newlineCountRef st.
Proof.
  intros H. rewrite addLog_append by (now rewrite H, andb_false_r).
  split; [apply appendLog_logs|].
  unfold appendLog, countNewlines. now rewrite H.
Qed.

Lemma addLog_connection lineBreak ty d t st :
  connection (addLog lineBreak ty d t st) = connection st.
Proof.
  destruct (addLog_keeps lineBreak ty d t st) as (_ & Hc & Hp & _).
  unfold connection. now rewrite Hc, Hp.
Qed.

(** C8, as amended.  [disconnect] does not touch the frequency meter: the
    line-feed accumulator and the published lines-per-second value after a
    disconnect are what they were before it, whether the handler runs to
    its end or is rejected on the way. *)
Theorem disconnect_keeps_meter st :
  newlineCountRef (snd (disconnect st)) = newlineCountRef st
  /\ lineFrequency (snd (disconnect st)) = lineFrequency st.
Proof.
  unfold App.disconnect.
  assert (H : forall s,
            newlineCountRef s = newlineCountRef st ->
            lineFrequency s = lineFrequency st ->
            let s' := addLog (isAutoLineBreak st) info [] "串口已关闭"
                        (setIsPaused false (setIsConnected false s)) in
            newlineCountRef s' = newlineCountRef st
            /\ lineFrequency s' = lineFrequency st).
  { intros s H1 H2 s'. unfold s'.
    destruct (addLog_other info [] "串口已关闭" (isAutoLineBreak st)
                (setIsPaused false (setIsConnected false s)) eq_refl)
      as [_ ->].
    destruct (addLog_keeps (isAutoLineBreak st) info [] "串口已关闭"
                (setIsPaused false (setIsConnected false s)))
      as (_ & _ & _ & _ & _ & -> & _).
    split; assumption. }
  destruct st as [p c lb pa l lf rr kr pr nc lu wl wc dr].
  destruct rr as [[|]|], p; cbn [snd]; try (split; reflexivity);
    apply H; reflexivity.
Qed.

(** What a paused send leaves behind: one Error entry, nothing else. *)
Lemma paused_entry msg st :
  let st' := addLog (isAutoLineBreak st) error [] msg st in
  same_connection st st'
  /\ connection st' = connection st /\ port st' = port st
  /\ logs st' = keep_last 3000 (logs st ++ [fresh (draws st) error [] msg]).
Proof.
  intros st'. unfold st'.
  destruct (addLog_keeps (isAutoLineBreak st) error [] msg st) as (P & K).
  destruct (addLog_other error [] msg (isAutoLineBreak st) st eq_refl)
    as [L _].
  split; [exact (conj P K)|]. split; [apply addLog_connection|].
  split; assumption.
Qed.

(** C6, as amended.  Both send paths are gated by the same two tests, in
    this order, in every state.  First the port: with no port, or a port
    without outbound stream, the handler returns at once, paused or not:
    the state is the same, nothing is written, no entry is logged.  Then
    the pause flag: with a port that has its outbound stream and the page
    paused, nothing is written, port and connection state stay as they
    are, and one Error entry is added at the end of the store.  Nothing
    is ever written unless both tests pass.  In a coherent state the
    first case is that of the Disconnected page, the second that of the
    paused one. *)
Theorem send_gating input mode fuel file options sched st :
  ((port st = None \/ exists p, port st = Some p /\ writable p = false) ->
   sendData input mode st = (st, [])
   /\ handleFileSend fuel file options sched st = Some (Resolved, st, []))
  /\ ((exists p, port st = Some p /\ writable p = true) ->
      isPaused st = true ->
      (exists st',
         sendData input mode st = (st', [Logged error send_paused_message])
         /\ same_connection st st'
         /\ connection st' = connection st /\ port st' = port st
         /\ logs st' = keep_last 3000
              (logs st ++ [fresh (draws st) error [] send_paused_message]))
      /\ (exists st',
            handleFileSend fuel file options sched st
            = Some (Resolved, st', [Logged error file_paused_message])
            /\ same_connection st st'
            /\ connection st' = connection st /\ port st' = port st
            /\ logs st' = keep_last 3000
                 (logs st
                    ++ [fresh (draws st) error [] file_paused_message])))
  /\ (writes_of (snd (sendData input mode st)) <> [] ->
      exists p, port st = Some p /\ writable p = true
                /\ isPaused st = false)
  /\ (forall settled st' trace,
        handleFileSend fuel file options sched st
        = Some (settled, st', trace) ->
        writes_of trace <> [] ->
        exists p, port st = Some p /\ writable p = true
                  /\ isPaused st = false)
  /\ (coherent st -> connection st = Disconnected ->
      sendData input mode st = (st, [])
      /\ handleFileSend fuel file options sched st
         = Some (Resolved, st, []))
  /\ (coherent st -> connection st = ConnectedPaused ->
      (exists st',
         sendData input mode st = (st', [Logged error send_paused_message])
         /\ connection st' = ConnectedPaused /\ port st' = port st
         /\ logs st' = keep_last 3000
              (logs st ++ [fresh (draws st) error [] send_paused_message]))
      /\ (exists st',
            handleFileSend fuel file options sched st
            = Some (Resolved, st', [Logged error file_paused_message])
            /\ connection st' = ConnectedPaused /\ port st' = port st
            /\ logs st' = keep_last 3000
                 (logs st
                    ++ [fresh (draws st) error [] file_paused_message]))).
Proof.
  assert (Hsilent :
            (port st = None
             \/ exists p, port st = Some p /\ writable p = false) ->
            sendData input mode st = (st, [])
            /\ handleFileSend fuel file options sched st
               = Some (Resolved, st, [])).
  { unfold App.sendData, App.handleFileSend.
    intros [->|(p & -> & ->)]; split; reflexivity. }
  assert (Hpaused :
            (exists p, port st = Some p /\ writable p = true) ->
            isPaused st = true ->
            (exists st',
               sendData input mode st
               = (st', [Logged error send_paused_message])
               /\ same_connection st st'
               /\ connection st' = connection st /\ port st' = port st
               /\ logs st' = keep_last 3000
                    (logs st
                       ++ [fresh (draws st) error [] send_paused_message]))
            /\ (exists st',
                  handleFileSend fuel file options sched st
                  = Some (Resolved, st', [Logged error file_paused_message])
                  /\ same_connection st st'
                  /\ connection st' = connection st /\ port st' = port st
                  /\ logs st' = keep_last 3000
                       (logs st
                          ++ [fresh (draws st) error []
                                file_paused_message]))).
  { intros (p & Hport & Hw) Hpa.
    unfold App.sendData, App.handleFileSend. rewrite Hport, Hw, Hpa.
    cbn [negb]. rewrite <- Hport.
    split; eexists; (split; [reflexivity|]); apply paused_entry. }
  split; [exact Hsilent|]. split; [exact Hpaused|].
  split; [|split; [|split]].
  - unfold App.sendData.
    destruct (port st) as [p|]; [|intros H; now elim H].
    destruct (writable p) eqn:Hw; cbn [negb]; [|intros H; now elim H].
    destruct (isPaused st); [intros H; now elim H|].
    intros _. exists p. repeat split. exact Hw.
  - intros settled st' trace E. unfold App.handleFileSend in E.
    destruct (port st) as [p|];
      [|inversion E; subst; intros H; now elim H].
    destruct (writable p) eqn:Hw; cbn [negb] in E;
      [|inversion E; subst; intros H; now elim H].
    destruct (isPaused st);
      [inversion E; subst; intros H; now elim H|].
    intros _. exists p. repeat split. exact Hw.
  - unfold coherent, connection. intros Hco Hd. apply Hsilent.
    destruct (port st) as [p|]; [|now left].
    destruct Hco as [Hc _]. rewrite Hc in Hd. now destruct (isPaused st).
  - unfold coherent. intros Hco Hp.
    assert (Hpa : isPaused st = true).
    { unfold connection in Hp.
      destruct (isConnected st); [|discriminate].
      now destruct (isPaused st). }
    assert (Hport : exists p, port st = Some p /\ writable p = true).
    { unfold connection in Hp.
      destruct (port st) as [p|].
      - exists p. now split.
      - rewrite Hco in Hp. discriminate. }
    destruct (Hpaused Hport Hpa)
      as [(s1 & E1 & _ & C1 & P1 & L1) (s2 & E2 & _ & C2 & P2 & L2)].
    rewrite Hp in C1, C2.
    split; [exists s1|exists s2]; repeat split; assumption.
Qed.



(** The chunk loop of a handler that was not paused when it was called,
    on a port that takes every write: it ends, by its condition, after
    writing the pieces of the data still to send. *)
Lemma sendLoop_finishes lineBreak data options sched :
  (forall n, write_fault n = None) ->
  (0 < throttleBytes options)%Z ->
  forall fuel sent k st,
    sent <= List.length data -> List.length data - sent < fuel ->
    exists st',
      sendLoop fuel false lineBreak data options sched sent k st
      = Some (Finished, st',
              schedule_of (throttleMs options) (List.length data) sent
                (chunks_fuel fuel (Z.to_nat (throttleBytes options))
                             (skipn sent data))).
Proof.
  intros Hok Hsize.
  set (n := Z.to_nat (throttleBytes options)).
  assert (Hn : 0 < n) by (unfold n; lia).
  induction fuel as [|fuel IH]; intros sent k st Hle Hfuel; [lia|].
  cbn [App.sendLoop]. rewrite Hok.
  destruct (Nat.ltb_spec sent (List.length data)) as [Hlt|Hge].
  - rewrite (slice_chunk data sent (throttleBytes options) Hlt Hsize).
    fold n.
    remember (skipn sent data) as rest eqn:Hrest.
    assert (Hlen : List.length rest = List.length data - sent)
      by (subst rest; apply length_skipn).
    destruct rest as [|x rest']; [cbn [List.length] in Hlen; lia|].
    set (chunk := firstn n (x :: rest')).
    assert (Hchunk : List.length chunk
                     = Nat.min n (List.length data - sent))
      by (unfold chunk; rewrite length_firstn, Hlen; reflexivity).
    set (sent' := sent + List.length chunk).
    assert (Hskip : skipn n (x :: rest') = skipn sent' data).
    { rewrite Hrest, skipn_skipn.
      destruct (Nat.le_gt_cases n (List.length data - sent)).
      - f_equal. unfold sent'. lia.
      - rewrite !skipn_all2; [reflexivity| |]; unfold sent'; lia. }
    destruct (IH sent' (S k)
                (run random_id clock (sched (S k))
                     (setWriteCalls (S (writeCalls st)) st)))
      as (st' & E); [unfold sent'; lia|unfold sent'; lia|].
    rewrite E. exists st'. cbn [chunks_fuel schedule_of]. rewrite Hskip.
    fold chunk. fold sent'. do 4 f_equal.
    destruct (Nat.ltb_spec sent' (List.length data)) as [Hmore|Hdone].
    + rewrite andb_true_r.
      destruct fuel as [|fuel']; [unfold sent' in *; lia|].
      remember (skipn sent' data) as rest2 eqn:Hrest2.
      assert (List.length rest2 = List.length data - sent')
        by (subst rest2; apply length_skipn).
      destruct rest2; [cbn [List.length] in *; lia|]. reflexivity.
    + rewrite andb_false_r, skipn_all2, chunks_fuel_nil by lia. reflexivity.
  - rewrite skipn_all2, chunks_fuel_nil by lia. now exists st.
Qed.

(** [Math.round] rounds: to the nearest integer, a tie going up. *)
Lemma Math_round_rounded (x : number) : rounded x (Math_round x).
Proof.
  destruct x as [s| s| |s m e]; try reflexivity.
  unfold rounded, Math_round.
  destruct (Z.ltb_spec e 0) as [He|He].
  - replace (0 <=? e)%Z with false by (symmetry; apply Z.leb_gt; exact He).
    set (v := if s then Z.neg m else Z.pos m).
    exists ((2 * v + 2 ^ (- e)) / 2 ^ (- e + 1))%Z.
    split; [|reflexivity].
    assert (Hd : (0 < 2 ^ (- e))%Z) by (apply Z.pow_pos_nonneg; lia).
    replace (2 ^ (- e + 1))%Z with (2 * 2 ^ (- e))%Z
      by (rewrite Z.pow_add_r by lia; lia).
    set (D := (2 ^ (- e))%Z) in *.
    pose proof (Z.div_mod (2 * v + D) (2 * D) ltac:(lia)) as Hq.
    pose proof (Z.mod_pos_bound (2 * v + D) (2 * D) ltac:(lia)) as Hr.
    set (q := ((2 * v + D) / (2 * D))%Z) in *.
    set (r := ((2 * v + D) mod (2 * D))%Z) in *.
    split; nia.
  - now replace (0 <=? e)%Z with true by (symmetry; apply Z.leb_le; exact He).
Qed.

(** The progress report is the rounding of [(sent / total) * 100]. *)
Lemma percent_rounded sent total :
  rounded (scaled_ratio sent total) (percent sent total).
Proof. apply Math_round_rounded. Qed.

Lemma progress_rounded total (sents : list nat) :
  Forall2 (fun p s => rounded (scaled_ratio s total) p)
          (map (fun s => percent s total) sents) sents.
Proof.
  induction sents as [|s r IH]; constructor; [apply percent_rounded|exact IH].
Qed.

(** C3.  A file send that is let in (coherent state, Connected, writer
    free) on a port that takes every write, for a file of [total > 0]
    bytes and a chunk size [throttleBytes > 0], ends whatever else happens
    on the page meanwhile, and what it does is: one start entry, then for
    each piece of the file in turn one write and one progress report
    [Math.round((sent / total) * 100)], with a wait of [throttleMs]
    (when positive) after every piece but the last, then one completion
    entry.  The pieces concatenate to the file, there are
    [ceil(total / throttleBytes)] of them, and each but the last is
    [throttleBytes] long.  Each progress report is the binary64 number
    [(sent / total) * 100] rounded to the nearest integer, a tie going
    up, [sent] being the bytes written so far. *)
Theorem file_send_chunks fuel file options sched st :
  (forall n, write_fault n = None) ->
  coherent st -> connection st = Connected -> writerLocked st = false ->
  0 < List.length (contents file) -> (0 < throttleBytes options)%Z ->
  List.length (contents file) < fuel ->
  let data := contents file in
  let total := List.length data in
  let size := Z.to_nat (throttleBytes options) in
  let chunks := chunks_of size data in
  let steps := schedule_of (throttleMs options) total 0 chunks in
  (exists st',
     handleFileSend fuel file options sched st
     = Some (Resolved, st',
             Logged info (file_start_message file total)
               :: steps ++ [Logged info file_done_message])
     /\ writerLocked st' = false)
  /\ List.concat chunks = data
  /\ List.length chunks = (total + size - 1) / size
  /\ (forall i, S i < List.length chunks ->
        List.length (nth i chunks []) = size)
  /\ (forall c, In c chunks -> 1 <= List.length c <= size)
  /\ writes_of steps = chunks
  /\ progress_of steps = map (fun s => percent s total) (sent_after 0 chunks)
  /\ Forall2 (fun p s => rounded (scaled_ratio s total) p)
       (progress_of steps) (sent_after 0 chunks)
  /\ sleeps_of steps
     = (if (0 <? throttleMs options)%Z
        then repeat (throttleMs options) (List.length chunks - 1) else []).
Proof.
  intros Hok Hco Hc Hfree Hpos Hsize Hfuel data total size chunks steps.
  subst steps chunks total data. unfold chunks_of.
  assert (Hn : 0 < size) by (unfold size; lia).
  split; [|repeat split].
  - unfold coherent, connection in *.
    destruct (isConnected st) eqn:Hic; [|discriminate].
    destruct (isPaused st) eqn:Hpa; [discriminate|].
    destruct (port st) as [p|] eqn:Hport; [|discriminate].
    destruct Hco as [_ Hw].
    unfold App.handleFileSend. rewrite Hport, Hw, Hpa, Hfree. cbn [negb].
    match goal with
    | |- context [App.sendLoop _ _ _ fuel false ?lb ?d options sched 0 0 ?s] =>
        destruct (sendLoop_finishes lb d options sched Hok Hsize
                    fuel 0 0 s) as (st' & E); [lia|lia|]
    end.
    rewrite E. cbn [skipn]. fold size.
    rewrite (chunks_fuel_enough size Hn fuel
               (List.length (contents file)) (contents file)) by lia.
    eexists. split; reflexivity.
  - apply chunks_concat; [exact Hn|apply Nat.le_refl].
  - apply chunks_count; [exact Hn|apply Nat.le_refl].
  - intros i Hi. apply chunks_full; [exact Hn|apply Nat.le_refl|exact Hi].
  - apply (chunks_sizes size Hn _ _ (Nat.le_refl _) c H).
  - apply (chunks_sizes size Hn _ _ (Nat.le_refl _) c H).
  - apply schedule_writes.
  - apply schedule_progress.
  - rewrite schedule_progress. apply progress_rounded.
  - apply schedule_sleeps.
Qed.

(** A handler that was not paused when it was called never leaves its
    loop by the pause check. *)
Lemma sendLoop_no_break lineBreak data options sched :
  forall fuel sent k st exit st' trace,
    sendLoop fuel false lineBreak data options sched sent k st
    = Some (exit, st', trace) ->
    exit <> Broke.
Proof.
  induction fuel as [|fuel IH]; intros sent k st exit st' trace E;
    [discriminate|].
  cbn [App.sendLoop] in E.
  destruct (sent <? List.length data); [|now inversion E].
  destruct (write_fault (writeCalls st)); [now inversion E|].
  match type of E with
  | context [App.sendLoop _ _ _ fuel false lineBreak data options sched
                          ?s ?k' ?st2] =>
      destruct (App.sendLoop random_id clock write_fault fuel false lineBreak
                  data options sched s k' st2)
        as [[[exit2 st2'] rest]|] eqn:E2; [|discriminate];
      apply IH in E2
  end.
  now inversion E; subst.
Qed.

End Laws.

Section Scenarios.

Local Abbreviation sendData :=
  (App.sendData Scenario.random_id Scenario.clock Scenario.no_fault
                Scenario.locked_error).
Local Abbreviation handleFileSend :=
  (App.handleFileSend Scenario.random_id Scenario.clock Scenario.no_fault
                      Scenario.locked_error).
Local Abbreviation disconnect :=
  (App.disconnect Scenario.random_id Scenario.clock).

(** C8, the claim as worded, at a connected page with five line feeds
    counted and seven lines per second published: after [disconnect] the
    two values are still five and seven, not zero. *)
Lemma disconnect_meter_counterexample :
  fst (disconnect Scenario.metered) = Resolved
  /\ newlineCountRef (snd (disconnect Scenario.metered)) = 5
  /\ lineFrequency (snd (disconnect Scenario.metered)) = 7.
Proof. repeat split. Qed.

(** C6, the claim as worded, at the Disconnected state of a fresh page:
    neither send path adds an Error entry; both return without a trace. *)
Lemma disconnected_send_counterexample :
  connection (initial 0) = Disconnected
  /\ sendData "hi" Text (initial 0) = (initial 0, [])
  /\ errors_of (logs (fst (sendData "hi" Text (initial 0)))) = []
  /\ handleFileSend 1001 Scenario.file1000 Scenario.by100 Scenario.quiet
       (initial 0) = Some (Resolved, initial 0, []).
Proof. repeat split. Qed.

Lemma send_gating_witness :
  sendData "hi" Text (initial 0) = (initial 0, [])
  /\ (sendData "hi" Text Scenario.paused_no_stream
      = (Scenario.paused_no_stream, [])
      /\ handleFileSend 1001 Scenario.file1000 Scenario.by100
           Scenario.quiet Scenario.paused_no_stream
         = Some (Resolved, Scenario.paused_no_stream, []))
  /\ exists st',
       sendData "hi" Text Scenario.paused
       = (st', [Logged error send_paused_message])
       /\ connection st' = ConnectedPaused
       /\ List.length (logs st') = 1.
Proof.
  split; [|split].
  - apply (proj1 (send_gating Scenario.random_id Scenario.clock
                    Scenario.no_fault Scenario.locked_error "hi" Text 1001
                    Scenario.file1000 Scenario.by100 Scenario.quiet
                    (initial 0))).
    left. reflexivity.
  - apply (proj1 (send_gating Scenario.random_id Scenario.clock
                    Scenario.no_fault Scenario.locked_error "hi" Text 1001
                    Scenario.file1000 Scenario.by100 Scenario.quiet
                    Scenario.paused_no_stream)).
    right. exists {| writable := false |}. split; reflexivity.
  - destruct (send_gating Scenario.random_id Scenario.clock Scenario.no_fault
                Scenario.locked_error "hi" Text 1001 Scenario.file1000
                Scenario.by100 Scenario.quiet Scenario.paused)
      as (_ & H & _).
    destruct H as [(st' & E & _ & C & _ & L) _].
    + exists {| writable := true |}. split; reflexivity.
    + reflexivity.
    + exists st'. repeat split; [exact E|exact C|].
      rewrite L. reflexivity.
Defined.



Lemma file_send_witness :
  (exists st',
     handleFileSend 1001 Scenario.file1000 Scenario.by100 Scenario.quiet
       Scenario.connected
     = Some (Resolved, st',
             Logged info "开始发送文件: data.bin (1000 字节)"
               :: schedule_of 0 1000 0 (chunks_of 100 (repeat x55 1000))
               ++ [Logged info "文件发送完毕"])
     /\ writes_of (schedule_of 0 1000 0 (chunks_of 100 (repeat x55 1000)))
        = repeat (repeat x55 100) 10
     /\ progress_of (schedule_of 0 1000 0 (chunks_of 100 (repeat x55 1000)))
        = map of_int [10; 20; 30; 40; 50; 60; 70; 80; 90; 100]%Z
     /\ sleeps_of (schedule_of 0 1000 0 (chunks_of 100 (repeat x55 1000)))
        = [])
  /\ (exists st' trace,
        handleFileSend 9 Scenario.file8 Scenario.by3 Scenario.quiet
          Scenario.connected
        = Some (Resolved, st', trace)
        /\ writes_of trace
           = [repeat x55 3; repeat x55 3; repeat x55 2]
        /\ progress_of trace = map of_int [38; 75; 100]%Z
        /\ Forall2 (fun p s => rounded (scaled_ratio s 8) p)
             (map of_int [38; 75; 100]%Z) [3; 6; 8]).
Proof.
  split.
  - destruct (file_send_chunks Scenario.random_id Scenario.clock
                Scenario.no_fault Scenario.locked_error
                1001 Scenario.file1000 Scenario.by100 Scenario.quiet
                Scenario.connected)
      as ((st' & E & _) & _).
    + reflexivity.
    + split; reflexivity.
    + reflexivity.
    + reflexivity.
    + apply Nat.ltb_lt. vm_compute. reflexivity.
    + reflexivity.
    + apply Nat.ltb_lt. vm_compute. reflexivity.
    + exists st'. split; [exact E|]. repeat split; vm_compute; reflexivity.
  - destruct (file_send_chunks Scenario.random_id Scenario.clock
                Scenario.no_fault Scenario.locked_error
                9 Scenario.file8 Scenario.by3 Scenario.quiet
                Scenario.connected)
      as ((st' & E & _) & _ & _ & _ & _ & _ & _ & R & _).
    + reflexivity.
    + split; reflexivity.
    + reflexivity.
    + reflexivity.
    + apply Nat.ltb_lt. vm_compute. reflexivity.
    + reflexivity.
    + apply Nat.ltb_lt. vm_compute. reflexivity.
    + exists st'. eexists. split; [exact E|].
      split; [vm_compute; reflexivity|].
      split; [vm_compute; reflexivity|].
      exact R.
Defined.

(** The progress report at some counts: thirds round to 33 and 67, the
    tie 37.5 goes up to 38, and 23 of 40 bytes are reported as 57 percent
    (the binary64 product is just below 57.5). *)
Example percent_values :
  percent 1 3 = of_int 33 /\ percent 2 3 = of_int 67
  /\ percent 3 8 = of_int 38 /\ percent 1 8 = of_int 13
  /\ percent 23 40 = of_int 57 /\ percent 29 200 = of_int 14
  /\ percent 1 1000 = of_int 0 /\ percent 5 1000 = of_int 1
  /\ percent 1000 1000 = of_int 100.
Proof. vm_compute. repeat split. Qed.

(** [Math.round] at numbers that are not progress reports: -0.25 goes to
    -0, -1.5 to -1, 2.5 to 3. *)
Example Math_round_values :
  Math_round (div (of_int (-1)) (of_int 4)) = S754_zero true
  /\ Math_round (div (of_int (-3)) (of_int 2)) = of_int (-1)
  /\ Math_round (div (of_int 5) (of_int 2)) = of_int 3
  /\ Math_round (of_int 7) = of_int 7.
Proof. vm_compute. repeat split. Qed.

(** With a wait of 10 ms configured, the same file is sent with nine
    waits, one between each two chunks and none after the tenth. *)
Example slow_send_waits :
  match handleFileSend 1001 Scenario.file1000 Scenario.by100_slow
          Scenario.quiet Scenario.connected with
  | Some (_, _, trace) =>
      sleeps_of trace = repeat 10%Z 9
      /\ List.last trace (Sleep 0) = Logged info file_done_message
      /\ nth 29 trace (Sleep 0) = Progress (of_int 100)
  | None => False
  end.
Proof. vm_compute. repeat split. Qed.

(** C5 at a 1000-byte file sent 100 bytes at a time, the user pressing
    Pause while the third chunk is written: the page is paused at the
    end, yet all ten chunks were written, no abort entry was logged and
    the completion entry was. *)
Theorem pause_during_file_send :
  match handleFileSend 1001 Scenario.file1000 Scenario.by100
          Scenario.pause_after_3 Scenario.connected with
  | Some (settled, st', trace) =>
      settled = Resolved
      /\ isPaused st' = true
      /\ writes_of trace = repeat (repeat x55 100) 10
      /\ logged_of trace
         = [(info, "开始发送文件: data.bin (1000 字节)"%string);
            (info, "文件发送完毕"%string)]
      /\ map text (logs st')
         = ["开始发送文件: data.bin (1000 字节)"; "串口数据已暂停";
            "文件发送完毕"]%string
  | None => False
  end.
Proof. vm_compute. repeat split. Qed.

End Scenarios.

End HandlerFacts.

(** ** Further facts about the converters *)

Module ConvertersMore.
Import Js Converters HexReading PageReading ConvertersFacts.

Lemma string_length_app (s t : string) :
  String.length (s ++ t) = String.length s + String.length t.
Proof. induction s; simpl; congruence. Qed.

Lemma count_append (s t : string) :
  hex_digit_count (s ++ t) = hex_digit_count s + hex_digit_count t.
Proof.
  induction s as [|c r IH]; simpl; [reflexivity|]. rewrite IH. lia.
Qed.

Lemma pairs_app (n : nat) :
  forall s t, String.length s = 2 * n ->
    pairs (s ++ t) = pairs s ++ pairs t.
Proof.
  induction n as [|n IH]; intros s t H.
  - destruct s; [reflexivity|discriminate].
  - destruct s as [|a [|b r]]; try (simpl in H; lia).
    change (pairs (String a (String b r) ++ t))
      with (to_uint8 (parseInt16 (String a (String b EmptyString)))
              :: pairs (r ++ t)).
    rewrite (IH r t) by (simpl in H; lia). reflexivity.
Qed.

Lemma pairs_length (n : nat) :
  forall s, String.length s = 2 * n -> List.length (pairs s) = n.
Proof.
  induction n as [|n IH]; intros s H.
  - destruct s; [reflexivity|discriminate].
  - destruct s as [|a [|b r]]; try (simpl in H; lia).
    cbn [pairs List.length]. f_equal. apply IH. simpl in H. lia.
Qed.

(** The parser, by the parity of the digit count. *)
Lemma parse_cases (s : string) :
  hexToUint8Array s
  = if hex_digit_count s mod 2 =? 0 then Ok (pairs (strip_non_hex s))
    else Throw (Error invalid_hex_message).
Proof.
  destruct (Nat.eqb_spec (hex_digit_count s mod 2) 0) as [E|E].
  - apply Nat.Div0.mod_divides in E as [n Hn].
    now apply (hexToUint8Array_even s n).
  - apply hexToUint8Array_odd.
    pose proof (Nat.mod_upper_bound (hex_digit_count s) 2). lia.
Qed.

Lemma strip_nothing (s : string) :
  hex_digit_count s = 0 -> strip_non_hex s = EmptyString.
Proof.
  intros H. rewrite <- strip_length in H.
  now destruct (strip_non_hex s).
Qed.

(** The parser reads its input through [strip_non_hex] only. *)
Lemma parse_by_digits (s t : string) :
  strip_non_hex s = strip_non_hex t -> hexToUint8Array s = hexToUint8Array t.
Proof. intros H. unfold hexToUint8Array. now rewrite H. Qed.

Lemma parse_app (s t : string) :
  hex_digit_count s mod 2 = 0 ->
  hexToUint8Array s = Ok (pairs (strip_non_hex s))
  /\ hexToUint8Array (s ++ t)
     = match hexToUint8Array t with
       | Ok b => Ok (pairs (strip_non_hex s) ++ b)
       | Throw e => Throw e
       end.
Proof.
  intros H. rewrite !parse_cases, H, count_append. split; [reflexivity|].
  apply Nat.Div0.mod_divides in H as [n Hn].
  replace ((hex_digit_count s + hex_digit_count t) mod 2)
    with (hex_digit_count t mod 2)
    by (rewrite Hn, Nat.add_comm, (Nat.mul_comm 2 n);
        symmetry; apply Nat.Div0.mod_add).
  destruct (hex_digit_count t mod 2 =? 0); [|reflexivity].
  rewrite strip_append. f_equal. apply (pairs_app n).
  now rewrite strip_length.
Qed.

(** The rendering of a byte sequence parses to the sequence. *)
Lemma parse_rendered (a : list byte) :
  hexToUint8Array (uint8ArrayToHex a) = Ok a.
Proof.
  destruct (rendered_pairs a) as (Hcount & Hstrip & Hpairs).
  cbv zeta in Hcount, Hstrip, Hpairs.
  rewrite parse_cases, <- strip_length, strip_rendered, <- Hstrip,
    strip_length, Hcount.
  replace (2 * List.length a mod 2) with 0
    by (symmetry; rewrite Nat.mul_comm; apply Nat.Div0.mod_mul).
  cbn [Nat.eqb]. now rewrite Hstrip, Hpairs.
Qed.

(** X1.  Parsing distributes over concatenation after a text with an even
    number of hex digits: such a text parses, and a text appended to it
    parses to the bytes of the first followed by the bytes of the second,
    or fails if the second fails. *)
Theorem hex_parse_concat (s t : string) :
  hex_digit_count s mod 2 = 0 ->
  exists a,
    hexToUint8Array s = Ok a
    /\ hexToUint8Array (s ++ t)
       = match hexToUint8Array t with
         | Ok b => Ok (a ++ b)
         | Throw e => Throw e
         end.
Proof.
  intros H. exists (pairs (strip_non_hex s)). now apply parse_app.
Qed.

(** X2.  Text without hex digits changes nothing wherever it is put, and
    a successful parse returns half as many bytes as the input has hex
    digits. *)
Theorem hex_parse_ignores (s junk t : string) :
  hex_digit_count junk = 0 ->
  hexToUint8Array (s ++ junk ++ t) = hexToUint8Array (s ++ t)
  /\ forall b, hexToUint8Array (s ++ t) = Ok b ->
       2 * List.length b = hex_digit_count (s ++ t).
Proof.
  intros H. split.
  - apply parse_by_digits.
    now rewrite !strip_append, (strip_nothing junk H).
  - intros b Hb. rewrite parse_cases in Hb.
    destruct (Nat.eqb_spec (hex_digit_count (s ++ t) mod 2) 0) as [E|E];
      [|discriminate].
    inversion Hb; subst b.
    apply Nat.Div0.mod_divides in E as [n Hn].
    rewrite (pairs_length n) by (now rewrite strip_length).
    now rewrite Hn.
Qed.

Lemma hex_of_byte_alphabet (b : byte) :
  string_forall is_upper_hex_or_space (hex_of_byte b) = true.
Proof. destruct b; vm_compute; reflexivity. Qed.

Lemma string_forall_app (f : ascii -> bool) (s t : string) :
  string_forall f (s ++ t) = string_forall f s && string_forall f t.
Proof.
  induction s as [|c r IH]; simpl; [reflexivity|].
  now rewrite IH, andb_assoc.
Qed.

Lemma hex_of_byte_length (b : byte) : String.length (hex_of_byte b) = 2.
Proof.
  destruct (hex_of_byte_digits b) as (c1 & c2 & E & _). now rewrite E.
Qed.

(** Rendering a sequence with one more byte in front. *)
Lemma render_cons (b : byte) (a : list byte) :
  a <> [] ->
  uint8ArrayToHex (b :: a)
  = (hex_of_byte b ++ " " ++ uint8ArrayToHex a)%string.
Proof. destruct a; [congruence|reflexivity]. Qed.

Lemma render_app (a b : list byte) :
  a <> [] -> b <> [] ->
  uint8ArrayToHex (a ++ b)
  = (uint8ArrayToHex a ++ " " ++ uint8ArrayToHex b)%string.
Proof.
  intros Ha Hb. induction a as [|x a IH]; [congruence|].
  destruct a as [|y a].
  - cbn [app]. now rewrite render_cons.
  - change ((x :: y :: a) ++ b) with (x :: (y :: a) ++ b).
    rewrite render_cons by discriminate.
    rewrite IH by discriminate.
    rewrite (render_cons x (y :: a)) by discriminate.
    now rewrite !LogStoreFacts.string_app_assoc.
Qed.

(** X3.  The rendering of [n >= 1] bytes has [3 n - 1] characters, each an
    upper-case hex digit or a space, and the rendering of two non-empty
    sequences one after the other is their renderings with a space
    between. *)
Theorem render_shape (a b : list byte) :
  String.length (uint8ArrayToHex a) = 3 * List.length a - 1
  /\ string_forall is_upper_hex_or_space (uint8ArrayToHex a) = true
  /\ (a <> [] -> b <> [] ->
      uint8ArrayToHex (a ++ b)
      = (uint8ArrayToHex a ++ " " ++ uint8ArrayToHex b)%string).
Proof.
  split; [|split; [|apply render_app]].
  - induction a as [|x a IH]; [reflexivity|].
    destruct a as [|y a].
    + cbn [uint8ArrayToHex map String.concat]. apply hex_of_byte_length.
    + rewrite render_cons by discriminate.
      rewrite !string_length_app, hex_of_byte_length, IH.
      cbn [List.length String.length]. lia.
  - induction a as [|x a IH]; [reflexivity|].
    destruct a as [|y a].
    + cbn [uint8ArrayToHex map String.concat]. apply hex_of_byte_alphabet.
    + rewrite render_cons by discriminate.
      now rewrite !string_forall_app, hex_of_byte_alphabet, IH.
Qed.

End ConvertersMore.

(** ** Further facts about the store, the meter, the export and the
    terminal *)

Module StoreMore.
Import Js Types App Page Converters TerminalView.
Import HexReading StoreReading TransferReading PageReading.
Import ConvertersFacts LogStoreFacts ConvertersMore.

Lemma count_newlines_app (s t : string) :
  count_newlines (s ++ t) = count_newlines s + count_newlines t.
Proof.
  induction s as [|c r IH]; simpl; [reflexivity|]. rewrite IH. lia.
Qed.

Lemma filter_snoc {A : Type} (f : A -> bool) (l : list A) (x : A) :
  filter f (l ++ [x]) = filter f l ++ (if f x then [x] else []).
Proof. rewrite filter_app. reflexivity. Qed.

Lemma join_text_app (l m : list string) :
  join_text (l ++ m) = (join_text l ++ join_text m)%string.
Proof.
  induction l as [|s l IH]; [reflexivity|].
  cbn [app join_text fold_right]. fold (join_text (l ++ m)).
  fold (join_text l). now rewrite IH, string_app_assoc.
Qed.

Lemma rx_payload_snoc (l : list LogEntry) (e : LogEntry) :
  rx_payload (l ++ [e])
  = rx_payload l ++ (if is_rx (type e) then data e else []).
Proof.
  unfold rx_payload. rewrite filter_snoc, map_app, concat_app.
  destruct (is_rx (type e)); cbn; now rewrite ?app_nil_r.
Qed.

Lemma rx_text_snoc (l : list LogEntry) (e : LogEntry) :
  rx_text (l ++ [e])
  = (rx_text l ++ (if is_rx (type e) then text e else ""))%string.
Proof.
  unfold rx_text. rewrite filter_snoc, map_app, join_text_app.
  destruct (is_rx (type e)); cbn; now rewrite ?string_app_nil_r.
Qed.

Lemma add_nan_r (x : number) : add x nan = nan.
Proof. now destruct x. Qed.

Lemma add_nan_l (x : number) : add nan x = nan.
Proof. now destruct x. Qed.

Lemma fold_add_nan (l : list LogEntry) :
  Forall (fun e => byteCount e = None) l ->
  fold_left (fun sum e => add sum (byteCount_number e)) l nan = nan.
Proof.
  induction 1 as [|e l He _ IH]; [reflexivity|].
  cbn [fold_left]. unfold byteCount_number at 2. now rewrite He, add_nan_r.
Qed.

Lemma Forall_filter {A : Type} (P : A -> Prop) (f : A -> bool) (l : list A) :
  Forall P l -> Forall P (filter f l).
Proof.
  induction 1 as [|x l Hx _ IH]; [constructor|].
  cbn [filter]. destruct (f x); [now constructor|exact IH].
Qed.

(** A total over entries without [byteCount] is [NaN] as soon as there is
    one entry to add. *)
Lemma byte_total_unset (t : LogType) (l : list LogEntry) :
  Forall (fun e => byteCount e = None) l ->
  byte_total t l
  = match filter (fun e => match type e, t with
                           | rx, rx | tx, tx | info, info
                           | error, error => true
                           | _, _ => false
                           end) l with
    | [] => of_int 0
    | _ :: _ => nan
    end.
Proof.
  intros H. unfold byte_total.
  apply (Forall_filter _ (fun e => match type e, t with
                                   | rx, rx | tx, tx | info, info
                                   | error, error => true
                                   | _, _ => false
                                   end)) in H.
  destruct H as [|e r He Hr]; [reflexivity|].
  cbn [fold_left]. unfold byteCount_number at 2. rewrite He, add_nan_r.
  now apply fold_add_nan.
Qed.

Lemma filter_has {A : Type} (f : A -> bool) (l : list A) :
  existsb f l = match filter f l with [] => false | _ :: _ => true end.
Proof.
  induction l as [|x l IH]; [reflexivity|].
  cbn [existsb filter]. destruct (f x); [reflexivity|exact IH].
Qed.

Section Laws.
Variable random_id : nat -> string.
Variable clock : nat -> Z.
Variable format_time : Z -> string.
Variable range_error : exn.

Local Abbreviation addLog := (App.addLog random_id clock).
Local Abbreviation appendLog := (App.appendLog random_id clock).
Local Abbreviation fresh := (StoreReading.fresh random_id clock).
Local Abbreviation appends := (StoreReading.appends random_id clock).
Local Abbreviation receives := (StoreReading.receives random_id clock).
Local Abbreviation exportLogs :=
  (Page.exportLogs format_time range_error).

(** [addLog] counts the line feeds of Receive text, merged or not. *)
Lemma addLog_meter lineBreak ty d t st :
  newlineCountRef (addLog lineBreak ty d t st)
  = newlineCountRef st + (if is_rx ty then count_newlines t else 0)
  /\ lastFrequencyUpdateRef (addLog lineBreak ty d t st)
     = lastFrequencyUpdateRef st.
Proof.
  assert (C : newlineCountRef (countNewlines ty t st)
              = newlineCountRef st + (if is_rx ty then count_newlines t else 0)
              /\ lastFrequencyUpdateRef (countNewlines ty t st)
                 = lastFrequencyUpdateRef st).
  { unfold countNewlines. destruct (is_rx ty); split; cbn; lia. }
  unfold App.addLog, App.appendLog.
  destruct (negb lineBreak && is_rx ty && (0 <? List.length (logs st)));
    [|exact C].
  destruct (nth_error (logs st) (List.length (logs st) - 1)) as [l|];
    [|exact C].
  destruct (is_rx (type l)); exact C.
Qed.

Lemma receives_meter lineBreak chunks :
  forall st,
    newlineCountRef (receives lineBreak chunks st)
    = newlineCountRef st + count_newlines (join_text (map snd chunks))
    /\ lastFrequencyUpdateRef (receives lineBreak chunks st)
       = lastFrequencyUpdateRef st.
Proof.
  induction chunks as [|[d t] cs IH]; intros st.
  - cbn. split; [lia|reflexivity].
  - change (receives lineBreak ((d, t) :: cs) st)
      with (receives lineBreak cs (addLog lineBreak rx d t st)).
    destruct (IH (addLog lineBreak rx d t st)) as [-> ->].
    destruct (addLog_meter lineBreak rx d t st) as [-> ->].
    cbn [map snd join_text fold_right is_rx].
    fold (join_text (map snd cs)). rewrite count_newlines_app.
    split; [lia|reflexivity].
Qed.

(** X4.  The frequency meter counts the line feeds of what is received,
    however the text is cut into chunks and whatever the framing: a tick
    at least one second after the last one publishes the count gathered
    since and starts again from zero, so that a second tick with nothing
    received in between publishes zero; a tick that comes earlier changes
    nothing. *)
Theorem meter_counts lineBreak chunks st now later :
  (1000 <= now - lastFrequencyUpdateRef st)%Z ->
  (1000 <= later - now)%Z ->
  let st1 := frequencyTick now (receives lineBreak chunks st) in
  lineFrequency st1
  = newlineCountRef st + count_newlines (join_text (map snd chunks))
  /\ newlineCountRef st1 = 0
  /\ lineFrequency (frequencyTick later st1) = 0
  /\ (forall early, (early - lastFrequencyUpdateRef st < 1000)%Z ->
        frequencyTick early st = st).
Proof.
  intros Hnow Hlater st1.
  destruct (receives_meter lineBreak chunks st) as [Hc Hl].
  assert (E1 : st1 = setLastFrequencyUpdateRef now
                       (setNewlineCountRef 0
                          (setLineFrequency
                             (newlineCountRef (receives lineBreak chunks st))
                             (receives lineBreak chunks st)))).
  { unfold st1, frequencyTick. rewrite Hl.
    now replace (1000 <=? now - lastFrequencyUpdateRef st)%Z with true
      by (symmetry; apply Z.leb_le; exact Hnow). }
  repeat split.
  - rewrite E1. cbn. exact Hc.
  - rewrite E1. reflexivity.
  - unfold frequencyTick at 1. rewrite E1 at 1.
    cbn [lastFrequencyUpdateRef setLastFrequencyUpdateRef].
    replace (1000 <=? later - now)%Z with true
      by (symmetry; apply Z.leb_le; exact Hlater).
    rewrite E1. reflexivity.
  - intros early He. unfold frequencyTick.
    now replace (1000 <=? early - lastFrequencyUpdateRef st)%Z with false
      by (symmetry; apply Z.leb_gt; exact He).
Qed.

Lemma addLog_grows lineBreak ty d t st :
  List.length (logs (addLog lineBreak ty d t st))
  <= S (List.length (logs st)).
Proof.
  destruct (addLog_cases random_id clock lineBreak ty d t st)
    as [(-> & -> & p & l & E & R) | ->].
  - destruct (addLog_merge random_id clock d t st p l E R) as [-> _].
    rewrite E, !length_app. cbn. lia.
  - rewrite appendLog_logs, keep_last_length, length_app. cbn [List.length].
    lia.
Qed.

(** What an append adds to the received stream, when nothing is cut. *)
Lemma addLog_stream lineBreak ty d t st :
  List.length (logs st) < 3000 ->
  rx_payload (logs (addLog lineBreak ty d t st))
  = rx_payload (logs st) ++ (if is_rx ty then d else [])
  /\ rx_text (logs (addLog lineBreak ty d t st))
     = (rx_text (logs st) ++ (if is_rx ty then t else ""))%string.
Proof.
  intros H.
  destruct (addLog_cases random_id clock lineBreak ty d t st)
    as [(-> & -> & p & l & E & R) | ->].
  - destruct (addLog_merge random_id clock d t st p l E R) as [-> _].
    rewrite E, !rx_payload_snoc, !rx_text_snoc.
    cbn [merged type data text is_rx]. rewrite R.
    now rewrite app_assoc, string_app_assoc.
  - rewrite appendLog_logs, keep_last_all
      by (rewrite length_app; cbn [List.length]; lia).
    rewrite rx_payload_snoc, rx_text_snoc. split; reflexivity.
Qed.

Lemma appends_stream ops :
  forall st,
    List.length (logs st) + List.length ops <= 3000 ->
    rx_payload (logs (appends ops st))
    = rx_payload (logs st) ++ received_bytes ops
    /\ rx_text (logs (appends ops st))
       = (rx_text (logs st) ++ received_text ops)%string.
Proof.
  induction ops as [|[lb ty d t] ops IH]; intros st H.
  - cbn. now rewrite app_nil_r, string_app_nil_r.
  - cbn [List.length] in H.
    change (appends (mkAppend lb ty d t :: ops) st)
      with (appends ops (addLog lb ty d t st)).
    pose proof (addLog_grows lb ty d t st) as G.
    destruct (IH (addLog lb ty d t st)) as [-> ->]; [lia|].
    destruct (addLog_stream lb ty d t st) as [-> ->]; [lia|].
    unfold received_bytes, received_text.
    cbn [filter kind]. destruct (is_rx ty).
    + cbn [map bytes fragment List.concat join_text fold_right].
      now rewrite <- app_assoc, string_app_assoc.
    + now rewrite app_nil_r, string_app_nil_r.
Qed.

(** X5.  As long as the store has room, what it holds of the received
    stream does not depend on the framing: after any appends, the Receive
    payloads of the store, in order, are those it held followed by the
    Receive chunks appended, and the same for the Receive text. *)
Theorem received_stream ops st :
  List.length (logs st) + List.length ops <= 3000 ->
  rx_payload (logs (appends ops st))
  = rx_payload (logs st) ++ received_bytes ops
  /\ rx_text (logs (appends ops st))
     = (rx_text (logs st) ++ received_text ops)%string.
Proof. apply appends_stream. Qed.

Lemma total_length (rxData : list (list byte)) :
  forall acc,
    fold_left (fun acc curr => acc + List.length curr) rxData acc
    = acc + List.length (List.concat rxData).
Proof.
  induction rxData as [|d r IH]; intros acc; cbn [fold_left List.concat].
  - cbn. lia.
  - rewrite IH, length_app. lia.
Qed.

(** The copy loop writes the payloads one after the other. *)
Lemma copy_all_concat (rxData : list (list byte)) :
  forall done rest,
    List.length rest = List.length (List.concat rxData) ->
    copy_all range_error rxData (List.length done) (done ++ rest)
    = Ok (done ++ List.concat rxData).
Proof.
  induction rxData as [|d r IH]; intros done rest H.
  - cbn in *. now destruct rest.
  - cbn [List.concat] in H. rewrite length_app in H.
    cbn [copy_all]. unfold typed_set.
    replace (List.length (done ++ rest) <? List.length done + List.length d)
      with false
      by (symmetry; apply Nat.ltb_ge; rewrite length_app; lia).
    rewrite firstn_app, firstn_all, Nat.sub_diag, firstn_O, app_nil_r.
    rewrite skipn_app, skipn_all2 by lia.
    replace (List.length done + List.length d - List.length done)
      with (List.length d) by lia.
    cbn [app]. rewrite <- length_app.
    replace (done ++ d ++ skipn (List.length d) rest)
      with ((done ++ d) ++ skipn (List.length d) rest)
      by (now rewrite <- app_assoc).
    rewrite IH by (rewrite length_skipn; lia).
    cbn [List.concat]. now rewrite <- app_assoc.
Qed.

Lemma exportLogs_bin now st :
  logs st <> [] ->
  exportLogs bin now st
  = Ok (Some {| filename := ("serial_log_" ++ toStringZ now ++ ".bin")%string;
                blob := BinaryBlob (rx_payload (logs st))
                          "application/octet-stream" |}).
Proof.
  intros H. unfold Page.exportLogs.
  destruct (logs st) as [|e r] eqn:E; [congruence|].
  cbn [List.length Nat.eqb]. rewrite total_length. cbn [Nat.add].
  rewrite <- (app_nil_l (repeat x00 _)).
  change 0 with (List.length (@nil byte)).
  rewrite copy_all_concat by apply repeat_length.
  cbn [app]. now rewrite string_app_assoc.
Qed.

(** X6.  Exporting an empty store saves nothing in either format.
    Exporting a store that is not empty as BIN never fails and saves, under
    the name [serial_log_<now>.bin], the Receive payloads of the store in
    order and nothing else; for a store built by up to 3000 appends
    from the empty one, these are the Receive chunks appended. *)
Theorem export_bin now st :
  (logs st = [] -> forall format, exportLogs format now st = Ok None)
  /\ (logs st <> [] ->
      exportLogs bin now st
      = Ok (Some {| filename :=
                      ("serial_log_" ++ toStringZ now ++ ".bin")%string;
                    blob := BinaryBlob (rx_payload (logs st))
                              "application/octet-stream" |}))
  /\ (forall ops t0,
        logs (appends ops (initial t0)) <> [] ->
        List.length ops <= 3000 ->
        exportLogs bin now (appends ops (initial t0))
        = Ok (Some {| filename :=
                        ("serial_log_" ++ toStringZ now ++ ".bin")%string;
                      blob := BinaryBlob (received_bytes ops)
                                "application/octet-stream" |})).
Proof.
  split; [|split].
  - intros E format. unfold Page.exportLogs. now rewrite E.
  - apply exportLogs_bin.
  - intros ops t0 Hne Hlen. rewrite exportLogs_bin by exact Hne.
    destruct (appends_stream ops (initial t0)) as [-> _]; [cbn; lia|].
    reflexivity.
Qed.

(** X7.  The byte totals of the status bar: for a store built by
    [addLog] from the empty one, the received total is 0 while the store
    has no Receive entry and [NaN] from the first one on, and likewise
    the sent total with Transmit entries. *)
Theorem status_totals ops t0 :
  let l := logs (appends ops (initial t0)) in
  received_total l = (if has_rx l then nan else of_int 0)
  /\ sent_total l = (if has_tx l then nan else of_int 0).
Proof.
  intros l.
  pose proof (byteCount_never_set random_id clock ops t0) as H. fold l in H.
  unfold received_total, sent_total, has_rx, has_tx.
  rewrite !(byte_total_unset _ l H), !filter_has. split.
  - replace (filter (fun e => is_rx (type e)) l)
      with (filter (fun e => match type e, rx with
                             | rx, rx | tx, tx | info, info
                             | error, error => true
                             | _, _ => false
                             end) l)
      by (apply filter_ext; intros e; now destruct (type e)).
    now destruct (filter _ l).
  - replace (filter (fun e => match type e with tx => true | _ => false end) l)
      with (filter (fun e => match type e, tx with
                             | rx, rx | tx, tx | info, info
                             | error, error => true
                             | _, _ => false
                             end) l)
      by (apply filter_ext; intros e; now destruct (type e)).
    now destruct (filter _ l).
Qed.

End Laws.

End StoreMore.

(** ** Facts about the terminal's window *)

Module TerminalFacts.
Import Js Types App Converters TerminalView.
Import HexReading StoreReading PageReading.
Import ConvertersFacts LogStoreFacts ConvertersMore StoreMore.

(** The digits of a byte sequence, nothing between them. *)
Lemma digits_app (a b : list byte) :
  fold_right String.append EmptyString (map hex_of_byte (a ++ b))
  = (fold_right String.append EmptyString (map hex_of_byte a)
     ++ fold_right String.append EmptyString (map hex_of_byte b))%string.
Proof.
  induction a as [|x a IH]; [reflexivity|].
  cbn [app map fold_right]. now rewrite IH, string_app_assoc.
Qed.

Lemma strip_spans (l : list LogEntry) :
  Forall (fun e => is_rx (type e) = true) l ->
  strip_non_hex (join_text (map (span_text Hex) l))
  = fold_right String.append EmptyString
      (map hex_of_byte (List.concat (map data l))).
Proof.
  induction 1 as [|e l He _ IH]; [reflexivity|].
  cbn [map join_text fold_right List.concat].
  fold (join_text (map (span_text Hex) l)).
  rewrite strip_append, IH, digits_app. f_equal.
  unfold span_text. destruct (type e); try discriminate.
  now rewrite strip_append, strip_rendered, string_app_nil_r.
Qed.

Lemma filter_all {A : Type} (f : A -> bool) (l : list A) :
  Forall (fun x => f x = true) (filter f l).
Proof.
  induction l as [|x l IH]; [constructor|].
  cbn [filter]. destruct (f x) eqn:E; [now constructor|exact IH].
Qed.

(** X8.  The hex view of the received stream reads back as the stream:
    the spans that the raw-stream window shows in hex for the Receive
    entries of a store, put one after the other, parse to the Receive
    payloads of the store in order. *)
Theorem hex_window_parses (l : list LogEntry) :
  hexToUint8Array
    (join_text (window_text Hex false (filter (fun e => is_rx (type e)) l)))
  = Ok (rx_payload l).
Proof.
  unfold window_text, rx_payload.
  set (r := filter (fun e => is_rx (type e)) l).
  assert (Hr : Forall (fun e => is_rx (type e) = true) r)
    by apply filter_all.
  pose proof (strip_spans r Hr) as S.
  destruct (rendered_pairs (List.concat (map data r))) as (Hc & Hs & Hp).
  cbv zeta in Hc, Hs, Hp.
  rewrite (hexToUint8Array_even _ (List.length (List.concat (map data r)))).
  - now rewrite S, Hp.
  - now rewrite <- strip_length, S, <- Hs, strip_length.
Qed.

Lemma span_merged (m : DisplayMode) (l e : LogEntry) :
  is_rx (type l) = true -> is_rx (type e) = true ->
  (m = Hex -> data l <> [] /\ data e <> []) ->
  span_text m (merged l (data e) (text e))
  = (span_text m l ++ span_text m e)%string.
Proof.
  intros Hl He Hne. unfold span_text. cbn [merged type data text].
  destruct (type l); try discriminate. destruct (type e); try discriminate.
  destruct m; [reflexivity|].
  destruct (Hne eq_refl) as [H1 H2].
  now rewrite render_app, !string_app_assoc by assumption.
Qed.

(** X9.  In the raw stream the window shows the same text whether a
    Receive chunk was merged into the last Receive entry or has a span of
    its own (in hex view, for chunks that are not empty). *)
Theorem merge_keeps_window (m : DisplayMode) (p : list LogEntry)
    (l e : LogEntry) :
  is_rx (type l) = true -> is_rx (type e) = true ->
  (m = Hex -> data l <> [] /\ data e <> []) ->
  join_text (window_text m false (p ++ [merged l (data e) (text e)]))
  = join_text (window_text m false (p ++ [l; e])).
Proof.
  intros Hl He Hne. unfold window_text.
  rewrite !map_app, !join_text_app. f_equal.
  cbn [map join_text fold_right].
  rewrite (span_merged m l e Hl He Hne).
  now rewrite !string_app_assoc.
Qed.

End TerminalFacts.

(** ** Further facts about the handlers *)

Module HandlersMore.
Import Js Types App Page Converters.
Import HexReading StoreReading TransferReading PageReading.
Import ConvertersFacts LogStoreFacts ChunkFacts HandlerFacts.
Import ConvertersMore StoreMore.

(** Reading a cell after a chain of writes. *)
Ltac cells :=
  cbn [port isConnected isAutoLineBreak isPaused logs lineFrequency
       readerRef keepReadingRef isPausedRef newlineCountRef
       lastFrequencyUpdateRef writerLocked writeCalls draws
       setPort setIsConnected setIsPaused setLogs setLineFrequency
       setReaderRef setKeepReadingRef setNewlineCountRef
       setLastFrequencyUpdateRef setWriterLocked setWriteCalls setDraws
       setIsAutoLineBreak clearLogs] in *.

Section Laws.
Variable random_id : nat -> string.
Variable clock : nat -> Z.
Variable write_fault : nat -> option exn.
Variable locked_error : exn.

Local Abbreviation addLog := (App.addLog random_id clock).
Local Abbreviation fresh := (StoreReading.fresh random_id clock).
Local Abbreviation disconnect := (App.disconnect random_id clock).
Local Abbreviation togglePause := (App.togglePause random_id clock).
Local Abbreviation readLoop_turn := (App.readLoop_turn random_id clock).
Local Abbreviation incoming := (PageReading.incoming random_id clock).
Local Abbreviation connect := (Page.connect random_id clock).
Local Abbreviation act := (App.act random_id clock).
Local Abbreviation run := (App.run random_id clock).
Local Abbreviation sendData :=
  (App.sendData random_id clock write_fault locked_error).
Local Abbreviation sendLoop := (App.sendLoop random_id clock write_fault).
Local Abbreviation handleFileSend :=
  (App.handleFileSend random_id clock write_fault locked_error).
Local Abbreviation step :=
  (PageReading.step random_id clock write_fault locked_error).
Local Abbreviation steps :=
  (PageReading.steps random_id clock write_fault locked_error).

(** The refs of the read loop are not [addLog]'s to write. *)
Lemma addLog_refs lineBreak ty d t st :
  readerRef (addLog lineBreak ty d t st) = readerRef st
  /\ keepReadingRef (addLog lineBreak ty d t st) = keepReadingRef st.
Proof.
  assert (C : readerRef (countNewlines ty t st) = readerRef st
              /\ keepReadingRef (countNewlines ty t st) = keepReadingRef st).
  { unfold countNewlines. destruct (is_rx ty); split; reflexivity. }
  unfold App.addLog, App.appendLog.
  destruct (negb lineBreak && is_rx ty && (0 <? List.length (logs st)));
    [|exact C].
  destruct (nth_error (logs st) (List.length (logs st) - 1)) as [l|];
    [|exact C].
  destruct (is_rx (type l)); exact C.
Qed.

(** An entry of another kind than Receive: where it goes and what it
    costs. *)
Lemma addLog_note ty d t lineBreak st :
  is_rx ty = false ->
  logs (addLog lineBreak ty d t st)
  = keep_last 3000 (logs st ++ [fresh (draws st) ty d t])
  /\ draws (addLog lineBreak ty d t st) = S (draws st).
Proof.
  intros H. rewrite addLog_append by (now rewrite H, andb_false_r).
  split; [apply appendLog_logs|apply appendLog_draws].
Qed.

Lemma incoming_paused lineBreak chunks :
  forall st, isPausedRef st = true -> incoming lineBreak chunks st = st.
Proof.
  induction chunks as [|c cs IH]; intros st H; [reflexivity|].
  cbn [PageReading.incoming fold_left]. unfold App.readLoop_turn at 2.
  rewrite H. cbn [negb]. now apply IH.
Qed.

(** X10.  What is received while paused is lost.  On a connected page
    that is not paused, pressing Pause pauses; any chunks read from then
    on leave the whole state as it is; pressing again resumes, and the
    store then holds its former entries and the two notes of the pause
    and the resumption, nothing in between.  When not connected, the
    button does nothing. *)
Theorem pause_drops lineBreak chunks st :
  isConnected st = true -> isPaused st = false ->
  let st1 := togglePause st in
  let st2 := togglePause (incoming lineBreak chunks st1) in
  isPaused st1 = true
  /\ incoming lineBreak chunks st1 = st1
  /\ isPaused st2 = false /\ isPausedRef st2 = false
  /\ logs st2
     = keep_last 3000
         (logs st ++ [fresh (draws st) info [] "串口数据已暂停";
                      fresh (S (draws st)) info [] "串口数据已恢复"])
  /\ forall st0, isConnected st0 = false -> togglePause st0 = st0.
Proof.
  intros Hc Hp st1 st2.
  assert (E1 : st1 = addLog (isAutoLineBreak st) info [] "串口数据已暂停"
                            (setIsPaused true st)).
  { unfold st1, App.togglePause. now rewrite Hc, Hp. }
  destruct (addLog_keeps random_id clock (isAutoLineBreak st) info []
              "串口数据已暂停" (setIsPaused true st))
    as (_ & K1 & K2 & K3 & _).
  destruct (addLog_note info [] "串口数据已暂停" (isAutoLineBreak st)
              (setIsPaused true st) eq_refl) as [L1 D1].
  rewrite <- E1 in K1, K2, K3, L1, D1.
  cbn [isConnected isPaused isPausedRef logs draws setIsPaused]
    in K1, K2, K3, L1, D1.
  assert (I : incoming lineBreak chunks st1 = st1)
    by (now apply incoming_paused).
  assert (E2 : st2 = addLog (isAutoLineBreak st1) info [] "串口数据已恢复"
                            (setIsPaused false st1)).
  { unfold st2. rewrite I. unfold App.togglePause.
    now rewrite K1, Hc, K2. }
  destruct (addLog_keeps random_id clock (isAutoLineBreak st1) info []
              "串口数据已恢复" (setIsPaused false st1))
    as (_ & _ & J2 & J3 & _).
  destruct (addLog_note info [] "串口数据已恢复" (isAutoLineBreak st1)
              (setIsPaused false st1) eq_refl) as [L2 _].
  rewrite <- E2 in J2, J3, L2.
  cbn [isConnected isPaused isPausedRef logs draws setIsPaused]
    in J2, J3, L2.
  repeat split; try assumption.
  - rewrite L2, L1, D1, keep_last_app, <- app_assoc. reflexivity.
  - intros st0 H0. unfold App.togglePause. now rewrite H0.
Qed.

(** A [disconnect] that finds no released reader runs to its end: it is
    the closing note added to a state without port. *)
Lemma disconnect_shape st :
  readerRef st <> Some Released ->
  exists s,
    disconnect st
    = (Resolved, addLog (isAutoLineBreak st) info [] "串口已关闭" s)
    /\ port s = None /\ isConnected s = false
    /\ isPaused s = false /\ isPausedRef s = false
    /\ keepReadingRef s = false /\ readerRef s = None
    /\ logs s = logs st /\ draws s = draws st
    /\ writeCalls s = writeCalls st.
Proof.
  unfold App.disconnect.
  destruct st as [p c lb pa l lf rr kr pr nc lu wl wc dr]. cells.
  intros Hr.
  destruct rr as [[|]|]; [|now elim Hr|];
    destruct p; cells; eexists; (split; [reflexivity|]); cells;
    repeat split.
Qed.

(** A [disconnect] that finds a released reader is rejected by its
    [cancel], having told the read loop to stop and done nothing else. *)
Lemma disconnect_rejected st :
  readerRef st = Some Released ->
  disconnect st
  = (Rejected released_reader_error, setKeepReadingRef false st).
Proof.
  unfold App.disconnect. cells. now intros ->.
Qed.

Lemma reader_cases st :
  readerRef st = Some Released \/ readerRef st <> Some Released.
Proof. destruct (readerRef st) as [[|]|]; auto; right; discriminate. Qed.

(** X11.  A [disconnect] that finds no released reader in [readerRef]
    runs to its end, and after it there is no port, the page is
    Disconnected and coherent, not paused, the read loop is told to stop
    and has no reader, the store has one more entry, the closing note,
    and both send paths do nothing at all.  A [disconnect] that finds a
    released reader is rejected by [cancel] before any of this: only
    [keepReadingRef] is cleared, port, flags and store stay, and no note
    is added.  That is the state the read loop leaves when the stream
    ends or fails and the port has lost its inbound stream. *)
Theorem after_disconnect input mode fuel file options sched st :
  (readerRef st <> Some Released ->
   let st' := snd (disconnect st) in
   fst (disconnect st) = Resolved
   /\ port st' = None /\ connection st' = Disconnected /\ coherent st'
   /\ isPaused st' = false /\ isPausedRef st' = false
   /\ keepReadingRef st' = false /\ readerRef st' = None
   /\ logs st'
      = keep_last 3000 (logs st ++ [fresh (draws st) info [] "串口已关闭"])
   /\ sendData input mode st' = (st', [])
   /\ handleFileSend fuel file options sched st' = Some (Resolved, st', []))
  /\ (readerRef st = Some Released ->
      exists e,
        disconnect st = (Rejected e, setKeepReadingRef false st))
  /\ (forall lineBreak r,
        readerRef st <> None ->
        (r = ReadDone false \/ exists e, r = ReadError e false) ->
        let st1 := Page.readLoop_step random_id clock lineBreak r st in
        readerRef st1 = Some Released
        /\ same_connection st st1 /\ logs st1 = logs st
        /\ exists e,
             disconnect st1 = (Rejected e, setKeepReadingRef false st1)).
Proof.
  split; [|split].
  - intros Hr st'. unfold st'.
    destruct (disconnect_shape st Hr)
      as (s & -> & P & C & Pa & Pr & Kr & Rr & Ls & Ds & _).
    cbn [fst snd].
    destruct (addLog_keeps random_id clock (isAutoLineBreak st) info []
                "串口已关闭" s) as (K1 & K2 & K3 & K4 & _).
    destruct (addLog_refs (isAutoLineBreak st) info [] "串口已关闭" s)
      as (R1 & R2).
    destruct (addLog_note info [] "串口已关闭" (isAutoLineBreak st) s
                eq_refl) as [L _].
    rewrite Ls, Ds in L.
    split; [reflexivity|]. repeat split.
    + congruence.
    + unfold connection. now rewrite K2, C.
    + unfold coherent. now rewrite K1, P, K2.
    + congruence.
    + congruence.
    + congruence.
    + congruence.
    + exact L.
    + unfold App.sendData. now rewrite K1, P.
    + unfold App.handleFileSend. now rewrite K1, P.
  - intros Hr. eexists. now apply disconnect_rejected.
  - intros lineBreak r Hr Hcase st1.
    assert (E : st1 = setReaderRef (Some Released) st).
    { unfold st1. destruct Hcase as [->|[e ->]];
        cbn [Page.readLoop_step andb];
        destruct (readerRef st); try reflexivity; now elim Hr. }
    rewrite E. cells. split; [reflexivity|].
    split; [repeat split|]. split; [reflexivity|].
    eexists. now apply disconnect_rejected.
Qed.

Lemma page_ok_cells st st' :
  port st' = port st -> isConnected st' = isConnected st ->
  isPaused st' = isPaused st -> isPausedRef st' = isPausedRef st ->
  logs st' = logs st ->
  page_ok st -> page_ok st'.
Proof.
  unfold page_ok, coherent. intros -> -> -> -> ->. exact (fun H => H).
Qed.

Lemma page_ok_addLog lineBreak ty d t st :
  page_ok st -> page_ok (addLog lineBreak ty d t st).
Proof.
  intros (Hco & Hr & Hp & Hl & Hb).
  destruct (addLog_keeps random_id clock lineBreak ty d t st)
    as (K1 & K2 & K3 & K4 & _).
  unfold page_ok, coherent. rewrite K1, K2, K3, K4.
  repeat split; try assumption.
  - now apply addLog_length.
  - now apply addLog_byteCount.
Qed.

Lemma page_ok_togglePause st : page_ok st -> page_ok (togglePause st).
Proof.
  intros H. unfold App.togglePause.
  destruct (isConnected st) eqn:Hc; [|exact H]. cbn [negb].
  assert (H' : page_ok (setIsPaused (negb (isPaused st)) st)).
  { destruct H as (Hco & Hr & Hp & Hl & Hb).
    unfold page_ok, coherent in *. cells. now repeat split. }
  destruct (negb (isPaused st)); now apply page_ok_addLog.
Qed.

Lemma page_ok_disconnect st :
  page_ok st -> page_ok (snd (disconnect st)).
Proof.
  intros H. destruct (reader_cases st) as [Hr|Hr].
  - rewrite (disconnect_rejected st Hr). cbn [snd]. revert H.
    apply page_ok_cells; reflexivity.
  - destruct H as (_ & _ & _ & Hl & Hb).
    destruct (disconnect_shape st Hr)
      as (s & -> & P & C & Pa & Pr & _ & _ & Ls & _).
    cbn [snd]. apply page_ok_addLog. unfold page_ok, coherent.
    rewrite P, C, Pa, Pr, Ls. repeat split; try assumption. discriminate.
Qed.

Lemma page_ok_act a st : page_ok st -> page_ok (act a st).
Proof.
  intros H. destruct a as [| |lb v t|now]; cbn [App.act].
  - now apply page_ok_togglePause.
  - now apply page_ok_disconnect.
  - unfold App.readLoop_turn. destruct (negb (isPausedRef st)); [|exact H].
    now apply page_ok_addLog.
  - unfold frequencyTick.
    destruct (1000 <=? now - lastFrequencyUpdateRef st)%Z; [|exact H].
    revert H. apply page_ok_cells; reflexivity.
Qed.

Lemma page_ok_run acts : forall st, page_ok st -> page_ok (run acts st).
Proof.
  induction acts as [|a acts IH]; intros st H; [exact H|].
  cbn [App.run fold_left]. apply IH. now apply page_ok_act.
Qed.

Lemma page_ok_sendData input mode st :
  page_ok st -> page_ok (fst (sendData input mode st)).
Proof.
  intros H. unfold App.sendData.
  destruct (port st) as [p|]; [|exact H].
  destruct (negb (writable p)); [exact H|].
  destruct (isPaused st); [now apply page_ok_addLog|].
  destruct (match mode with
            | Hex => hexToUint8Array input
            | Text => Ok (stringToUint8Array input)
            end) as [data|e]; [|now apply page_ok_addLog].
  destruct (writerLocked st); [now apply page_ok_addLog|].
  destruct (write_fault _); cbn [fst]; apply page_ok_addLog;
    revert H; apply page_ok_cells; reflexivity.
Qed.

Lemma page_ok_sendLoop paused lineBreak data options sched :
  forall fuel sent k st exit st' trace,
    page_ok st ->
    sendLoop fuel paused lineBreak data options sched sent k st
    = Some (exit, st', trace) ->
    page_ok st'.
Proof.
  induction fuel as [|fuel IH]; intros sent k st exit st' trace H E;
    [discriminate|].
  cbn [App.sendLoop] in E.
  destruct (sent <? List.length data);
    [|inversion E; subst; exact H].
  destruct paused.
  { inversion E; subst. now apply page_ok_addLog. }
  destruct (write_fault (writeCalls st)).
  { inversion E; subst. revert H. apply page_ok_cells; reflexivity. }
  match type of E with
  | context [App.sendLoop _ _ _ fuel false lineBreak data options sched
                          ?s ?k' ?st2] =>
      destruct (App.sendLoop random_id clock write_fault fuel false lineBreak
                  data options sched s k' st2)
        as [[[exit2 st2'] rest]|] eqn:E2; [|discriminate];
      apply IH in E2;
      [inversion E; subst; exact E2|]
  end.
  apply page_ok_run. revert H. apply page_ok_cells; reflexivity.
Qed.

Lemma page_ok_handleFileSend fuel file options sched st settled st' trace :
  page_ok st ->
  handleFileSend fuel file options sched st = Some (settled, st', trace) ->
  page_ok st'.
Proof.
  intros H E. unfold App.handleFileSend in E.
  destruct (port st) as [p|]; [|inversion E; subst; exact H].
  destruct (negb (writable p)); [inversion E; subst; exact H|].
  destruct (isPaused st).
  { inversion E; subst. now apply page_ok_addLog. }
  destruct (writerLocked st); [inversion E; subst; exact H|].
  match type of E with
  | context [App.sendLoop _ _ _ fuel false ?lb ?d options sched 0 0 ?s] =>
      destruct (App.sendLoop random_id clock write_fault fuel false lb
                  d options sched 0 0 s)
        as [[[exit st2] rest]|] eqn:E2; [|discriminate];
      apply page_ok_sendLoop in E2
  end.
  - destruct exit; cbn [negb] in E; inversion E; subst;
      (eapply page_ok_cells;
       [| | | | |apply page_ok_addLog; exact E2]; reflexivity).
  - apply page_ok_addLog, page_ok_run.
    revert H. apply page_ok_cells; reflexivity.
Qed.

Lemma page_ok_connect baudRate attempt st :
  match attempt with Opened p _ => writable p = true | _ => True end ->
  page_ok st -> page_ok (fst (connect baudRate attempt st)).
Proof.
  intros Hw H. destruct attempt as [|e|p readable]; cbn [Page.connect fst].
  - exact H.
  - now apply page_ok_addLog.
  - match goal with
    | |- page_ok (if ?c then setReaderRef _ ?s else ?s) =>
        assert (Hs : page_ok s);
        [|destruct c; [revert Hs; apply page_ok_cells; reflexivity|exact Hs]]
    end.
    apply page_ok_addLog.
    destruct H as (Hco & Hr & Hp & Hl & Hb).
    unfold page_ok, coherent in *. cells. now repeat split.
Qed.

Lemma page_ok_step e st st' :
  opens_writable e -> page_ok st -> step e st = Some st' -> page_ok st'.
Proof.
  intros Hw H E. destruct e; cbn [PageReading.step] in E.
  - inversion E; subst. now apply page_ok_connect.
  - inversion E; subst. now apply page_ok_disconnect.
  - inversion E; subst. now apply page_ok_togglePause.
  - inversion E; subst. now apply (page_ok_act (Incoming lineBreak value textChunk)).
  - inversion E; subst. now apply (page_ok_act (FrequencyTick now)).
  - inversion E; subst. now apply page_ok_sendData.
  - destruct (App.handleFileSend _ _ _ _ _ _ _ _ _)
      as [[[settled st2] trace]|] eqn:E2; [|discriminate].
    inversion E; subst. now apply page_ok_handleFileSend in E2.
  - inversion E; subst.
    destruct H as (Hco & Hr & Hp & Hl & Hb).
    unfold page_ok, coherent in *. cells. repeat split; try assumption.
    + apply Nat.le_0_l.
    + constructor.
  - inversion E; subst. revert H. apply page_ok_cells; reflexivity.
Qed.

(** X12.  An invariant of the page.  A fresh page, and every state
    reached from a good one by connecting (to ports that come with their
    outbound stream), disconnecting, pausing, reading, ticking, sending
    text or files, clearing the terminal or switching the framing, in any
    order, is good: port and connected flag agree, the pause ref equals the
    pause flag, a paused page is connected, the store holds at most 3000
    entries and none of them has a [byteCount]. *)
Theorem page_invariant :
  (forall now, page_ok (initial now))
  /\ forall events st st',
       Forall opens_writable events -> page_ok st ->
       steps events st = Some st' -> page_ok st'.
Proof.
  split.
  - intros now. unfold page_ok, coherent. cbn [initial]. cells.
    repeat split.
    + discriminate.
    + apply Nat.le_0_l.
    + constructor.
  - induction events as [|e events IH]; intros st st' Hw H E.
    + inversion E; subst. exact H.
    + cbn [PageReading.steps] in E.
      destruct (step e st) as [st1|] eqn:E1; [|discriminate].
      inversion Hw; subst.
      apply (IH st1 st'); [assumption| |exact E].
      now apply (page_ok_step e st).
Qed.

(** X13.  The two ends of a text send that is let in.  On a Connected
    page with the writer free, when the write is rejected the send writes
    nothing and adds one Error entry with the cause, no Transmit entry,
    and the page stays Connected; when the write goes through, the bytes
    of the text are written once, a Transmit entry holding them and the
    text is added, and the writer is free again. *)
Theorem text_send_outcomes input st :
  coherent st -> connection st = Connected -> writerLocked st = false ->
  (forall e, write_fault (writeCalls st) = Some e ->
     let msg := (send_failed_prefix ++ message e)%string in
     snd (sendData input Text st) = [Logged error msg]
     /\ connection (fst (sendData input Text st)) = Connected
     /\ logs (fst (sendData input Text st))
        = keep_last 3000 (logs st ++ [fresh (draws st) error [] msg]))
  /\ (write_fault (writeCalls st) = None ->
      snd (sendData input Text st)
      = [Write (stringToUint8Array input); Logged tx input]
      /\ writerLocked (fst (sendData input Text st)) = false
      /\ connection (fst (sendData input Text st)) = Connected
      /\ logs (fst (sendData input Text st))
         = keep_last 3000
             (logs st
                ++ [fresh (draws st) tx (stringToUint8Array input) input])).
Proof.
  intros Hco Hc Hfree.
  assert (Hc' := Hc). unfold coherent, connection in Hco, Hc'.
  destruct (isConnected st) eqn:Hic; [|discriminate].
  destruct (isPaused st) eqn:Hpa; [discriminate|].
  destruct (port st) as [p|] eqn:Hport; [|discriminate].
  destruct Hco as [_ Hw].
  split.
  - intros e He.
    assert (E : sendData input Text st
                = (addLog (isAutoLineBreak st) error []
                          (send_failed_prefix ++ message e)
                          (setWriteCalls (S (writeCalls st))
                             (setWriterLocked true st)),
                   [Logged error (send_failed_prefix ++ message e)])).
    { unfold App.sendData. rewrite Hport, Hw, Hpa, Hfree. cells.
      now rewrite He. }
    rewrite E. cbn [fst snd].
    set (s := setWriteCalls _ _).
    destruct (addLog_note error [] (send_failed_prefix ++ message e)
                (isAutoLineBreak st) s eq_refl) as [L _].
    repeat split.
    + rewrite addLog_connection. unfold connection, s. cells.
      now rewrite Hic, Hpa.
    + exact L.
  - intros Hok.
    assert (E : sendData input Text st
                = (addLog (isAutoLineBreak st) tx (stringToUint8Array input)
                          input
                          (setWriterLocked false
                             (setWriteCalls (S (writeCalls st))
                                (setWriterLocked true st))),
                   [Write (stringToUint8Array input); Logged tx input])).
    { unfold App.sendData. rewrite Hport, Hw, Hpa, Hfree. cells.
      now rewrite Hok. }
    rewrite E. cbn [fst snd].
    set (s := setWriterLocked false _).
    destruct (addLog_keeps random_id clock (isAutoLineBreak st) tx
                (stringToUint8Array input) input s)
      as (_ & _ & _ & _ & _ & _ & K7 & _).
    destruct (addLog_note tx (stringToUint8Array input) input
                (isAutoLineBreak st) s eq_refl) as [L _].
    repeat split.
    + now rewrite K7.
    + rewrite addLog_connection. unfold connection, s. cells.
      now rewrite Hic, Hpa.
    + exact L.
Qed.

Lemma act_wire a st : writeCalls (act a st) = writeCalls st.
Proof.
  destruct a as [| |lb v t|now]; cbn [App.act].
  - unfold App.togglePause. destruct (negb (isConnected st)); [reflexivity|].
    destruct (negb (isPaused st));
      match goal with
      | |- context [App.addLog _ _ ?b ?ty ?d ?t ?s] =>
          destruct (addLog_keeps random_id clock b ty d t s)
            as (_ & _ & _ & _ & _ & _ & _ & ->)
      end; reflexivity.
  - destruct (reader_cases st) as [Hr|Hr].
    + now rewrite (disconnect_rejected st Hr).
    + destruct (disconnect_shape st Hr)
        as (s & -> & _ & _ & _ & _ & _ & _ & _ & _ & W).
      cbn [snd].
      destruct (addLog_keeps random_id clock (isAutoLineBreak st) info []
                  "串口已关闭" s) as (_ & _ & _ & _ & _ & _ & _ & ->).
      exact W.
  - unfold App.readLoop_turn. destruct (negb (isPausedRef st)); [|reflexivity].
    now destruct (addLog_keeps random_id clock lb rx v t st)
      as (_ & _ & _ & _ & _ & _ & _ & ->).
  - unfold frequencyTick.
    now destruct (1000 <=? now - lastFrequencyUpdateRef st)%Z.
Qed.

Lemma run_wire acts : forall st, writeCalls (run acts st) = writeCalls st.
Proof.
  induction acts as [|a acts IH]; intros st; [reflexivity|].
  cbn [App.run fold_left]. fold (run acts (act a st)).
  now rewrite IH, act_wire.
Qed.

(** The chunk loop up to a write that is rejected. *)
Lemma sendLoop_fault lineBreak data options sched e :
  (0 < throttleBytes options)%Z ->
  forall n fuel sent k st,
    fails_at write_fault (writeCalls st) n e ->
    sent + n * Z.to_nat (throttleBytes options) < List.length data ->
    List.length data - sent < fuel ->
    exists st',
      sendLoop fuel false lineBreak data options sched sent k st
      = Some (Threw e, st',
              schedule_before (throttleMs options) (List.length data) sent
                (firstn n
                   (chunks_fuel fuel (Z.to_nat (throttleBytes options))
                                (skipn sent data)))).
Proof.
  intros Hsize.
  set (size := Z.to_nat (throttleBytes options)).
  assert (Hn : 0 < size) by (unfold size; lia).
  induction n as [|n IH]; intros fuel sent k st [Hbefore Hat] Hroom Hfuel;
    (destruct fuel as [|fuel]; [lia|]); cbn [App.sendLoop].
  - replace (sent <? List.length data) with true
      by (symmetry; apply Nat.ltb_lt; lia).
    rewrite Nat.add_0_r in Hat. rewrite Hat. eexists. reflexivity.
  - replace (sent <? List.length data) with true
      by (symmetry; apply Nat.ltb_lt; lia).
    assert (H0 : write_fault (writeCalls st) = None)
      by (rewrite <- (Nat.add_0_r (writeCalls st)); apply Hbefore; lia).
    rewrite H0.
    rewrite (slice_chunk data sent (throttleBytes options))
      by (lia || exact Hsize).
    fold size.
    remember (skipn sent data) as rest eqn:Hrest.
    assert (Hlen : List.length rest = List.length data - sent)
      by (subst rest; apply length_skipn).
    destruct rest as [|x rest']; [cbn [List.length] in Hlen; lia|].
    set (chunk := firstn size (x :: rest')).
    assert (Hchunk : List.length chunk = size)
      by (unfold chunk; rewrite length_firstn, Hlen; lia).
    assert (Hskip : skipn size (x :: rest') = skipn (sent + size) data)
      by (rewrite Hrest, skipn_skipn; f_equal; lia).
    rewrite Hchunk.
    set (st2 := App.run _ _ _ _).
    destruct (IH fuel (sent + size) (S k) st2) as (st' & E).
    + unfold st2. rewrite run_wire. cells. split.
      * intros i Hi. replace (S (writeCalls st) + i)
          with (writeCalls st + S i) by lia. apply Hbefore. lia.
      * replace (S (writeCalls st) + n) with (writeCalls st + S n) by lia.
        exact Hat.
    + fold size in Hroom. lia.
    + lia.
    + rewrite E. exists st'.
      cbn [chunks_fuel firstn schedule_before]. rewrite Hskip.
      fold chunk. rewrite Hchunk.
      replace (sent + size <? List.length data) with true
        by (symmetry; apply Nat.ltb_lt; fold size in Hroom; lia).
      now rewrite andb_true_r.
Qed.

(** X14.  A write error ends a file send.  When the first [n] writes of
    a file send go through and the next is rejected with [e], the send
    writes exactly the first [n] pieces, each with its progress report
    and its wait, then logs one Error entry with the cause, logs no
    completion entry, and frees the writer. *)
Theorem file_send_write_error fuel file options sched st n e :
  coherent st -> connection st = Connected -> writerLocked st = false ->
  (0 < throttleBytes options)%Z ->
  List.length (contents file) < fuel ->
  n * Z.to_nat (throttleBytes options) < List.length (contents file) ->
  fails_at write_fault (writeCalls st) n e ->
  let total := List.length (contents file) in
  let sent_pieces :=
    firstn n (chunks_of (Z.to_nat (throttleBytes options)) (contents file)) in
  let steps := schedule_before (throttleMs options) total 0 sent_pieces in
  exists st',
    handleFileSend fuel file options sched st
    = Some (Resolved, st',
            Logged info (file_start_message file total)
              :: steps
              ++ [Logged error (file_failed_prefix ++ message e)])
    /\ writerLocked st' = false
    /\ writes_of steps = sent_pieces
    /\ List.length sent_pieces = n.
Proof.
  intros Hco Hc Hfree Hsize Hfuel Hroom Hfail total sent_pieces steps.
  subst steps sent_pieces total. unfold chunks_of.
  set (size := Z.to_nat (throttleBytes options)) in *.
  assert (Hn : 0 < size) by (unfold size; lia).
  unfold coherent, connection in *.
  destruct (isConnected st) eqn:Hic; [|discriminate].
  destruct (isPaused st) eqn:Hpa; [discriminate|].
  destruct (port st) as [p|] eqn:Hport; [|discriminate].
  destruct Hco as [_ Hw].
  unfold App.handleFileSend. rewrite Hport, Hw, Hpa, Hfree. cbn [negb].
  match goal with
  | |- context [App.sendLoop _ _ _ fuel false ?lb ?d options sched 0 0 ?s] =>
      destruct (sendLoop_fault lb d options sched e Hsize n fuel 0 0 s)
        as (st' & E)
  end.
  - match goal with
    | |- context [App.addLog _ _ ?b ?ty ?d ?t ?s] =>
        destruct (addLog_keeps random_id clock b ty d t s)
          as (_ & _ & _ & _ & _ & _ & _ & ->)
    end.
    rewrite run_wire. exact Hfail.
  - exact Hroom.
  - lia.
  - rewrite E. cbn [skipn]. fold size.
    rewrite (chunks_fuel_enough size Hn fuel
               (List.length (contents file)) (contents file)) by lia.
    eexists. split; [reflexivity|]. split; [reflexivity|].
    assert (W : forall ms total chunks sent,
              writes_of (schedule_before ms total sent chunks) = chunks).
    { intros ms total chunks. induction chunks as [|c r IHr]; intros sent;
        [reflexivity|].
      cbn [schedule_before writes_of]. f_equal.
      destruct (0 <? ms)%Z; cbn [app writes_of]; apply IHr. }
    split; [apply W|].
    rewrite length_firstn, chunks_count by (exact Hn || apply Nat.le_refl).
    apply Nat.min_l.
    apply Nat.div_le_lower_bound; [lia|].
    rewrite Nat.mul_comm. lia.
Qed.

Lemma slice_stuck (data : list byte) (sent : nat) (size : Z) :
  (size <= 0)%Z -> sent < List.length data ->
  sent + List.length (slice (Z.of_nat sent) (Z.of_nat sent + size) data)
  < List.length data.
Proof.
  intros Hs Hlt. unfold slice, rel_index.
  replace (Z.of_nat sent <? 0)%Z with false by (symmetry; apply Z.ltb_ge; lia).
  rewrite length_firstn, length_skipn, Nat2Z.id.
  destruct (Z.ltb_spec (Z.of_nat sent + size) 0); lia.
Qed.

(** With a chunk size of zero or less the loop never reaches the end of
    the data. *)
Lemma sendLoop_stuck lineBreak data options sched :
  (forall n, write_fault n = None) ->
  (throttleBytes options <= 0)%Z ->
  forall fuel sent k st,
    sent < List.length data ->
    sendLoop fuel false lineBreak data options sched sent k st = None.
Proof.
  intros Hok Hsize. induction fuel as [|fuel IH]; intros sent k st Hlt;
    [reflexivity|].
  cbn [App.sendLoop]. rewrite Hok.
  replace (sent <? List.length data) with true
    by (symmetry; apply Nat.ltb_lt; exact Hlt).
  rewrite IH; [reflexivity|].
  now apply slice_stuck.
Qed.

(** X15.  A chunk size of zero or less hangs the send.  For a file that
    is not empty, on a port that takes every write, a file send with
    [throttleBytes <= 0] that is let in never ends: whatever the fuel, the
    loop is still running, one (empty or short) write after the other. *)
Theorem file_send_never_ends file options sched st :
  (forall n, write_fault n = None) ->
  coherent st -> connection st = Connected -> writerLocked st = false ->
  0 < List.length (contents file) -> (throttleBytes options <= 0)%Z ->
  forall fuel, handleFileSend fuel file options sched st = None.
Proof.
  intros Hok Hco Hc Hfree Hpos Hsize fuel.
  unfold coherent, connection in *.
  destruct (isConnected st) eqn:Hic; [|discriminate].
  destruct (isPaused st) eqn:Hpa; [discriminate|].
  destruct (port st) as [p|] eqn:Hport; [|discriminate].
  destruct Hco as [_ Hw].
  unfold App.handleFileSend. rewrite Hport, Hw, Hpa, Hfree. cbn [negb].
  now rewrite sendLoop_stuck.
Qed.

(** X16.  An empty file is sent without a write: the send logs its start
    (0 bytes) and its completion and nothing else, for any chunk size and
    delay, even on a port that would reject every write. *)
Theorem empty_file_send fuel file options sched st :
  coherent st -> connection st = Connected -> writerLocked st = false ->
  contents file = [] ->
  exists st',
    handleFileSend (S fuel) file options sched st
    = Some (Resolved, st',
            [Logged info (file_start_message file 0);
             Logged info file_done_message])
    /\ writerLocked st' = false /\ writeCalls st' = writeCalls st.
Proof.
  intros Hco Hc Hfree Hempty.
  unfold coherent, connection in *.
  destruct (isConnected st) eqn:Hic; [|discriminate].
  destruct (isPaused st) eqn:Hpa; [discriminate|].
  destruct (port st) as [p|] eqn:Hport; [|discriminate].
  destruct Hco as [_ Hw].
  unfold App.handleFileSend. rewrite Hport, Hw, Hpa, Hfree, Hempty.
  cbn [negb App.sendLoop List.length Nat.ltb Nat.leb app].
  eexists. split; [reflexivity|]. split; [reflexivity|]. cells.
  repeat match goal with
  | |- context [App.addLog _ _ ?b ?ty ?d ?t ?s] =>
      destruct (addLog_keeps random_id clock b ty d t s)
        as (_ & _ & _ & _ & _ & _ & _ & ->)
  end.
  now rewrite run_wire.
Qed.

(** X20.  Sending back what the hex view shows sends the same bytes: on
    a Connected page with the writer free and a port that takes the write,
    a hex send of the rendering of a byte sequence writes that sequence,
    once, and logs it as a Transmit entry whose text is the rendering. *)
Theorem hex_echo (a : list byte) st :
  coherent st -> connection st = Connected -> writerLocked st = false ->
  write_fault (writeCalls st) = None ->
  snd (sendData (uint8ArrayToHex a) Hex st)
  = [Write a; Logged tx (uint8ArrayToHex a)]
  /\ logs (fst (sendData (uint8ArrayToHex a) Hex st))
     = keep_last 3000
         (logs st ++ [fresh (draws st) tx a (uint8ArrayToHex a)]).
Proof.
  intros Hco Hc Hfree Hok. unfold coherent, connection in *.
  destruct (isConnected st) eqn:Hic; [|discriminate].
  destruct (isPaused st) eqn:Hpa; [discriminate|].
  destruct (port st) as [p|] eqn:Hport; [|discriminate].
  destruct Hco as [_ Hw].
  unfold App.sendData. rewrite Hport, Hw, Hpa, Hfree, parse_rendered.
  cbn [negb writeCalls setWriterLocked setWriteCalls]. rewrite Hok.
  cbn [fst snd]. split; [reflexivity|].
  now destruct (addLog_note tx a (uint8ArrayToHex a) (isAutoLineBreak st)
                  (setWriterLocked false
                     (setWriteCalls (S (writeCalls st))
                        (setWriterLocked true st))) eq_refl) as [-> _].
Qed.

Lemma incoming_receives lineBreak chunks :
  forall st, isPausedRef st = false ->
    incoming lineBreak chunks st
    = receives random_id clock lineBreak chunks st.
Proof.
  induction chunks as [|[d t] cs IH]; intros st H; [reflexivity|].
  cbn [PageReading.incoming receives fold_left fst snd].
  unfold App.readLoop_turn at 2. rewrite H. cbn [negb].
  apply IH.
  destruct (addLog_keeps random_id clock lineBreak rx d t st)
    as (_ & _ & _ & K & _).
  now rewrite K.
Qed.

Lemma receives_stream lineBreak chunks :
  forall st,
    List.length (logs st) + List.length chunks <= 3000 ->
    rx_payload (logs (receives random_id clock lineBreak chunks st))
    = rx_payload (logs st) ++ List.concat (map fst chunks)
    /\ rx_text (logs (receives random_id clock lineBreak chunks st))
       = (rx_text (logs st) ++ join_text (map snd chunks))%string.
Proof.
  induction chunks as [|[d t] cs IH]; intros st H.
  - cbn. now rewrite app_nil_r, string_app_nil_r.
  - cbn [List.length] in H.
    change (receives random_id clock lineBreak ((d, t) :: cs) st)
      with (receives random_id clock lineBreak cs
              (addLog lineBreak rx d t st)).
    pose proof (addLog_grows random_id clock lineBreak rx d t st) as G.
    destruct (IH (addLog lineBreak rx d t st)) as [-> ->]; [lia|].
    destruct (addLog_stream random_id clock lineBreak rx d t st)
      as [-> ->]; [lia|].
    cbn [is_rx map fst snd List.concat join_text fold_right].
    fold (join_text (map snd cs)).
    now rewrite <- app_assoc, string_app_assoc.
Qed.

(** X21.  While the page is not paused and the store has room, the read
    loop loses and reorders nothing: after any number of turns the Receive
    payloads of the store are those it held followed by the chunks read,
    in order, and the Receive text likewise, under either framing. *)
Theorem reads_reach_store lineBreak chunks st :
  isPausedRef st = false ->
  List.length (logs st) + List.length chunks <= 3000 ->
  rx_payload (logs (incoming lineBreak chunks st))
  = rx_payload (logs st) ++ List.concat (map fst chunks)
  /\ rx_text (logs (incoming lineBreak chunks st))
     = (rx_text (logs st) ++ join_text (map snd chunks))%string.
Proof.
  intros Hp Hroom. rewrite incoming_receives by exact Hp.
  now apply receives_stream.
Qed.

Lemma notes_of_snoc (l : list LogEntry) (e : LogEntry) :
  notes_of (l ++ [e])
  = notes_of l ++ (if is_rx (type e) then [] else [e]).
Proof.
  unfold notes_of. rewrite filter_app. cbn [filter].
  now destruct (is_rx (type e)).
Qed.

(** A Receive append adds no entry of another kind, when nothing is
    cut. *)
Lemma addLog_rx_notes lineBreak d t st :
  List.length (logs st) < 3000 ->
  notes_of (logs (addLog lineBreak rx d t st)) = notes_of (logs st).
Proof.
  intros H.
  destruct (addLog_cases random_id clock lineBreak rx d t st)
    as [(-> & _ & p & l & E & R) | ->].
  - destruct (addLog_merge random_id clock d t st p l E R) as [-> _].
    rewrite E, !notes_of_snoc. cbn [merged type]. now rewrite R.
  - rewrite appendLog_logs, keep_last_all
      by (rewrite length_app; cbn [List.length]; lia).
    rewrite notes_of_snoc. cbn. now rewrite app_nil_r.
Qed.

Lemma readLoop_step_quiet lineBreak r st :
  List.length (logs st) < 3000 ->
  let st' := Page.readLoop_step random_id clock lineBreak r st in
  same_connection st st'
  /\ notes_of (logs st') = notes_of (logs st)
  /\ List.length (logs st') <= S (List.length (logs st)).
Proof.
  intros H. destruct r as [v t|readable|e readable];
    cbn [Page.readLoop_step].
  - unfold App.readLoop_turn.
    destruct (negb (isPausedRef st)).
    + split; [apply addLog_keeps|].
      split; [now apply addLog_rx_notes|apply addLog_grows].
    + repeat split. lia.
  - destruct (readerRef st) as [held|]; cells;
      destruct (readable && keepReadingRef st); repeat split; cells; lia.
  - destruct (readerRef st) as [held|]; cells;
      destruct (readable && keepReadingRef st); repeat split; cells; lia.
Qed.

(** X22.  The read loop is silent about trouble.  Whatever it reads
    (chunks, ends of stream, read errors, in any order), while the store
    has room the loop leaves the port, the connected and paused flags and
    the writer as they are and adds no entry that is not a Receive entry:
    a read error or the end of the stream is not logged and does not
    disconnect the page. *)
Theorem read_loop_silent lineBreak script :
  forall st,
    List.length (logs st) + List.length script <= 3000 ->
    let st' := Page.readLoop_steps random_id clock lineBreak script st in
    same_connection st st'
    /\ connection st' = connection st
    /\ notes_of (logs st') = notes_of (logs st).
Proof.
  induction script as [|r script IH]; intros st H.
  - cbn. repeat split.
  - cbn [List.length] in H.
    destruct (readLoop_step_quiet lineBreak r st) as (S1 & N1 & G1); [lia|].
    destruct (IH (Page.readLoop_step random_id clock lineBreak r st))
      as (S2 & C2 & N2); [lia|].
    cbn [Page.readLoop_steps fold_left].
    fold (Page.readLoop_steps random_id clock lineBreak script
            (Page.readLoop_step random_id clock lineBreak r st)).
    split; [|split].
    + exact (same_connection_trans _ _ _ S1 S2).
    + rewrite C2. destruct S1 as (_ & Hc & Hp & _).
      unfold connection. now rewrite Hc, Hp.
    + now rewrite N2.
Qed.

(** X23.  The outcomes of [connect].  Without the Web Serial API only an
    alert is shown.  A port request or an [open] that throws adds one
    Error entry with the cause and leaves port, flags and refs as they
    were.  An opened port is stored, the page is connected (paused or not
    as before), the read loop is told to run and holds a reader if the
    port has its inbound stream, and one note with the baud rate is
    added. *)
Theorem connect_outcomes baudRate st :
  connect baudRate Unsupported st = (st, Some unsupported_alert)
  /\ (forall e,
        let msg := (connect_failed_prefix ++ message e)%string in
        let st' := fst (connect baudRate (Refused e) st) in
        snd (connect baudRate (Refused e) st) = None
        /\ same_connection st st'
        /\ readerRef st' = readerRef st
        /\ keepReadingRef st' = keepReadingRef st
        /\ logs st' = keep_last 3000 (logs st ++ [fresh (draws st) error [] msg]))
  /\ (forall p readable,
        let st' := fst (connect baudRate (Opened p readable) st) in
        port st' = Some p /\ isConnected st' = true
        /\ isPaused st' = isPaused st
        /\ keepReadingRef st' = true
        /\ readerRef st' = (if readable then Some Locked else readerRef st)
        /\ logs st'
           = keep_last 3000
               (logs st
                  ++ [fresh (draws st) info [] (connected_message baudRate)])).
Proof.
  split; [reflexivity|]. split.
  - intros e msg st'. unfold st', msg. cbn [Page.connect fst snd].
    destruct (addLog_refs (isAutoLineBreak st) error []
                (connect_failed_prefix ++ message e) st) as [R1 R2].
    destruct (addLog_note error [] (connect_failed_prefix ++ message e)
                (isAutoLineBreak st) st eq_refl) as [L _].
    split; [reflexivity|]. split; [apply addLog_keeps|].
    repeat split; assumption.
  - intros p readable st'. unfold st'. cbn [Page.connect fst].
    set (s := setKeepReadingRef true _).
    destruct (addLog_keeps random_id clock (isAutoLineBreak st) info []
                (connected_message baudRate) s) as (K1 & K2 & K3 & _).
    destruct (addLog_refs (isAutoLineBreak st) info []
                (connected_message baudRate) s) as [R1 R2].
    destruct (addLog_note info [] (connected_message baudRate)
                (isAutoLineBreak st) s eq_refl) as [L _].
    unfold s in *. clear s. cells.
    rewrite R2, andb_true_r.
    destruct readable; cells; rewrite ?K1, ?K2, ?K3, ?R1, ?R2, ?L;
      repeat split.
Qed.

(** X24.  A file send does not look at the page.  On a port that takes
    every write, a send that is let in does the same, write for write and
    entry for entry, whatever happens on the page meanwhile: pausing,
    disconnecting, incoming data or timer ticks during the send change
    nothing of what is written, reported and logged by it. *)
Theorem file_send_ignores_page fuel file options sched1 sched2 st :
  (forall n, write_fault n = None) ->
  coherent st -> connection st = Connected -> writerLocked st = false ->
  (0 < throttleBytes options)%Z ->
  List.length (contents file) < fuel ->
  exists st1 st2 trace,
    handleFileSend fuel file options sched1 st = Some (Resolved, st1, trace)
    /\ handleFileSend fuel file options sched2 st
       = Some (Resolved, st2, trace)
    /\ List.last trace (Sleep 0) = Logged info file_done_message.
Proof.
  intros Hok Hco Hc Hfree Hsize Hfuel.
  unfold coherent, connection in *.
  destruct (isConnected st) eqn:Hic; [|discriminate].
  destruct (isPaused st) eqn:Hpa; [discriminate|].
  destruct (port st) as [p|] eqn:Hport; [|discriminate].
  destruct Hco as [_ Hw].
  unfold App.handleFileSend. rewrite Hport, Hw, Hpa, Hfree. cbn [negb].
  repeat match goal with
  | |- context [App.sendLoop _ _ _ fuel false ?lb ?d options ?sc 0 0 ?s] =>
      let st' := fresh "st'" in
      let E := fresh "E" in
      destruct (sendLoop_finishes random_id clock write_fault lb d options
                  sc Hok Hsize fuel 0 0 s) as (st' & E); [lia|lia|];
      rewrite E; clear E
  end.
  do 3 eexists. split; [reflexivity|]. split; [reflexivity|].
  rewrite app_comm_cons. apply last_last.
Qed.

End Laws.

End HandlersMore.

(** ** Facts about the sender panel *)

Module SenderFacts.
Import Js Types App Converters SenderPanel.
Import HexReading StoreReading TransferReading PageReading.
Import ConvertersFacts LogStoreFacts HandlerFacts ConvertersMore HandlersMore.

Lemma bytes_app (s t : string) :
  stringToUint8Array (s ++ t) = stringToUint8Array s ++ stringToUint8Array t.
Proof.
  unfold stringToUint8Array, list_byte_of_string.
  induction s as [|c r IH]; [reflexivity|].
  cbn [String.append list_ascii_of_string map app]. now rewrite IH.
Qed.

Section Laws.
Variable random_id : nat -> string.
Variable clock : nat -> Z.
Variable write_fault : nat -> option exn.
Variable locked_error : exn.

Local Abbreviation sendData :=
  (App.sendData random_id clock write_fault locked_error).
Local Abbreviation handleFileSend :=
  (App.handleFileSend random_id clock write_fault locked_error).
Local Abbreviation handleSendClick :=
  (SenderPanel.handleSendClick random_id clock write_fault locked_error).
Local Abbreviation handleFileChange :=
  (SenderPanel.handleFileChange random_id clock write_fault locked_error).

(** In hex mode what is written depends on the parse only. *)
Lemma hex_writes input1 input2 st :
  hexToUint8Array input1 = hexToUint8Array input2 ->
  writes_of (snd (sendData input1 Hex st))
  = writes_of (snd (sendData input2 Hex st)).
Proof.
  intros H. unfold App.sendData. rewrite H.
  destruct (port st) as [p|]; [|reflexivity].
  destruct (negb (writable p)); [reflexivity|].
  destruct (isPaused st); [reflexivity|].
  destruct (hexToUint8Array input2); [|reflexivity].
  destruct (writerLocked st); [reflexivity|].
  now destruct (write_fault _).
Qed.

(** X17.  The CR LF option of the panel.  In hex mode it changes nothing
    of what is written: the two characters are dropped by the parser like
    any other that is not a hex digit.  In text mode, on a Connected page
    with the writer free and a port that takes the write, the one chunk
    written is the bytes of the input followed by 0D 0A.  A blank input
    sends nothing in either mode. *)
Theorem terminator_option p st :
  (mode p = Hex ->
   writes_of (snd (handleSendClick (setAddNewline true p) st))
   = writes_of (snd (handleSendClick (setAddNewline false p) st)))
  /\ (mode p = Text -> trims_to_empty (input p) = false ->
      coherent st -> connection st = Connected -> writerLocked st = false ->
      write_fault (writeCalls st) = None ->
      writes_of (snd (handleSendClick (setAddNewline true p) st))
      = [stringToUint8Array (input p) ++ [x0d; x0a]])
  /\ (trims_to_empty (input p) = true -> handleSendClick p st = (st, [])).
Proof.
  split; [|split].
  - intros Hm. unfold SenderPanel.handleSendClick.
    cbn [setAddNewline input mode dataToSend addNewline]. rewrite Hm.
    destruct (trims_to_empty (input p)); [reflexivity|].
    apply hex_writes, parse_by_digits.
    rewrite strip_append. cbn. apply string_app_nil_r.
  - intros Hm Hb Hco Hc Hfree Hok. unfold SenderPanel.handleSendClick.
    cbn [setAddNewline input mode dataToSend addNewline]. rewrite Hm, Hb.
    unfold coherent, connection in *.
    destruct (isConnected st) eqn:Hic; [|discriminate].
    destruct (isPaused st) eqn:Hpa; [discriminate|].
    destruct (port st) as [q|] eqn:Hport; [|discriminate].
    destruct Hco as [_ Hw].
    unfold App.sendData. rewrite Hport, Hw, Hpa, Hfree.
    cbn [negb writeCalls setWriterLocked setWriteCalls]. rewrite Hok.
    cbn [snd writes_of]. now rewrite bytes_app.
  - intros Hb. unfold SenderPanel.handleSendClick. now rewrite Hb.
Qed.

(** X18.  The file button.  Without a file, or when the panel is not
    connected, choosing a file does nothing.  On a connected panel, when
    the writer is held the send is rejected and the panel stays in its
    sending state, with progress 0; when the writer is free and the send
    ends, the panel leaves the sending state and shows the last progress
    reported (0 if none was). *)
Theorem file_button fuel file sched p st :
  handleFileChange fuel None sched p st = Some (p, st, [])
  /\ (panel_connected st = false ->
      handleFileChange fuel (Some file) sched p st = Some (p, st, []))
  /\ (panel_connected st = true -> coherent st -> writerLocked st = true ->
      handleFileChange fuel (Some file) sched p st
      = Some (setSending true (of_int 0) p, st, []))
  /\ (panel_connected st = true -> coherent st -> writerLocked st = false ->
      forall p' st' trace,
        handleFileChange fuel (Some file) sched p st = Some (p', st', trace) ->
        isSendingFile p' = false
        /\ fileProgress p' = last_progress (of_int 0) trace).
Proof.
  split; [reflexivity|]. split; [|split].
  - intros H. unfold SenderPanel.handleFileChange. now rewrite H.
  - intros Hpc Hco Hl. unfold SenderPanel.handleFileChange. rewrite Hpc.
    cbn [negb]. unfold panel_connected, coherent in *.
    apply andb_prop in Hpc as [Hic Hpa].
    destruct (port st) as [q|] eqn:Hport; [|congruence].
    destruct Hco as [_ Hw]. destruct (isPaused st) eqn:Hp; [discriminate|].
    unfold App.handleFileSend. rewrite Hport, Hw, Hp, Hl. reflexivity.
  - intros Hpc Hco Hl p' st' trace E.
    unfold SenderPanel.handleFileChange in E. rewrite Hpc in E.
    cbn [negb] in E. unfold panel_connected, coherent in *.
    apply andb_prop in Hpc as [Hic Hpa].
    destruct (port st) as [q|] eqn:Hport; [|congruence].
    destruct Hco as [_ Hw]. destruct (isPaused st) eqn:Hp; [discriminate|].
    unfold App.handleFileSend in E. rewrite Hport, Hw, Hp, Hl in E.
    cbn [negb] in E.
    destruct (App.sendLoop _ _ _ _ _ _ _ _ _ _ _ _)
      as [[[exit st2] rest]|]; [|discriminate].
    destruct exit; inversion E; subst; split; reflexivity.
Qed.

End Laws.

End SenderFacts.

(** ** The order of the entries *)

Module OrderFacts.
Import Js Types App.
Import StoreReading PageReading LogStoreFacts.

Lemma sorted_snoc (ns : list nat) (d : nat) :
  StronglySorted lt ns -> Forall (fun n => n < d) ns ->
  StronglySorted lt (ns ++ [d]).
Proof.
  induction 1 as [|a l Hs IH Ha]; intros Hd.
  - repeat constructor.
  - inversion Hd; subst. cbn [app]. constructor; [now apply IH|].
    apply Forall_app. split; [exact Ha|now repeat constructor].
Qed.

Lemma sorted_skipn (k : nat) :
  forall ns, StronglySorted lt ns -> StronglySorted lt (skipn k ns).
Proof.
  induction k as [|k IH]; intros ns H; [exact H|].
  destruct ns as [|a ns]; [constructor|]. apply IH. now inversion H.
Qed.

Lemma sorted_NoDup (ns : list nat) : StronglySorted lt ns -> NoDup ns.
Proof.
  induction 1 as [|a l Hs IH Ha]; constructor; [|exact IH].
  intros Hin. rewrite Forall_forall in Ha. specialize (Ha a Hin). lia.
Qed.

Lemma sorted_map (clock : nat -> Z) (ns : list nat) :
  (forall a b, a < b -> (clock a <= clock b)%Z) ->
  StronglySorted lt ns -> StronglySorted Z.le (map clock ns).
Proof.
  intros Hm. induction 1 as [|a l Hs IH Ha]; cbn [map]; constructor;
    [exact IH|].
  rewrite Forall_map. revert Ha. apply Forall_impl. intros b. apply Hm.
Qed.

Section Laws.
Variable random_id : nat -> string.
Variable clock : nat -> Z.

Local Abbreviation addLog := (App.addLog random_id clock).
Local Abbreviation appends := (StoreReading.appends random_id clock).
Local Abbreviation drawn := (PageReading.drawn random_id clock).

Lemma drawn_addLog lineBreak ty d t st ns :
  drawn ns st -> exists ns', drawn ns' (addLog lineBreak ty d t st).
Proof.
  intros (Hi & Ht & Hs & Hd).
  destruct (addLog_cases random_id clock lineBreak ty d t st)
    as [(-> & -> & p & l & E & R) | E].
  - destruct (addLog_merge random_id clock d t st p l E R) as [L D].
    exists ns. unfold PageReading.drawn. rewrite L, D.
    rewrite E in Hi, Ht. rewrite !map_app in *.
    cbn [map merged id timestamp] in *. repeat split; assumption.
  - exists (keep_last 3000 (ns ++ [draws st])).
    unfold PageReading.drawn. rewrite E, appendLog_logs, appendLog_draws.
    assert (Hlen : List.length (logs st) = List.length ns)
      by (rewrite <- (length_map id), Hi; apply length_map).
    unfold keep_last. rewrite !length_app, Hlen. cbn [List.length].
    rewrite <- !skipn_map, !map_app, Hi, Ht. repeat split.
    + apply sorted_skipn. now apply sorted_snoc.
    + apply Forall_skipn, Forall_app. split.
      * revert Hd. apply Forall_impl. intros n Hn. lia.
      * repeat constructor.
Qed.

Lemma drawn_appends ops :
  forall st ns, drawn ns st -> exists ns', drawn ns' (appends ops st).
Proof.
  induction ops as [|o ops IH]; intros st ns H; [now exists ns|].
  destruct (drawn_addLog (framing o) (kind o) (bytes o) (fragment o) st ns H)
    as (ns1 & H1).
  exact (IH _ ns1 H1).
Qed.

(** X19.  The store keeps the entries in the order of their creation:
    after any appends from the empty store, the ids and timestamps of the
    entries are those drawn at strictly increasing draws, a merge keeping
    the id and timestamp of the entry it extends.  So when no id is drawn
    twice the ids in the store are pairwise different, and when the clock
    does not go back the timestamps never decrease down the store. *)
Theorem creation_order ops now :
  let l := logs (appends ops (initial now)) in
  exists ns,
    map id l = map random_id ns /\ map timestamp l = map clock ns
    /\ StronglySorted lt ns
    /\ (Injective random_id -> NoDup (map id l))
    /\ ((forall a b, a < b -> (clock a <= clock b)%Z) ->
        StronglySorted Z.le (map timestamp l)).
Proof.
  intros l.
  destruct (drawn_appends ops (initial now) [])
    as (ns & Hi & Ht & Hs & _).
  { repeat split; constructor. }
  exists ns. fold l in Hi, Ht. repeat split; try assumption.
  - intros Hinj. rewrite Hi.
    apply Injective_map_NoDup; [exact Hinj|now apply sorted_NoDup].
  - intros Hm. rewrite Ht. now apply sorted_map.
Qed.

End Laws.

End OrderFacts.

(** ** The further properties at concrete inputs *)

Module Instances.
Import Js Types App Page Converters TerminalView SenderPanel.
Import HexReading StoreReading TransferReading PageReading.
Import ConvertersMore StoreMore TerminalFacts HandlersMore SenderFacts.

Lemma hex_parse_concat_witness :
  exists a,
    hexToUint8Array "01 02" = Ok a
    /\ hexToUint8Array ("01 02" ++ " 0A")
       = match hexToUint8Array " 0A" with
         | Ok b => Ok (a ++ b)
         | Throw e => Throw e
         end.
Proof. apply (hex_parse_concat "01 02" " 0A"). reflexivity. Defined.

Lemma hex_parse_ignores_witness :
  hexToUint8Array ("0a" ++ ", " ++ "ff") = hexToUint8Array ("0a" ++ "ff")
  /\ forall b, hexToUint8Array ("0a" ++ "ff") = Ok b ->
       2 * List.length b = hex_digit_count ("0a" ++ "ff").
Proof. apply (hex_parse_ignores "0a" ", " "ff"). reflexivity. Defined.

Lemma render_shape_witness :
  uint8ArrayToHex ([x01; x02] ++ [xff])
  = (uint8ArrayToHex [x01; x02] ++ " " ++ uint8ArrayToHex [xff])%string.
Proof.
  apply (proj2 (proj2 (render_shape [x01; x02] [xff]))); discriminate.
Defined.

Lemma meter_counts_witness :
  lineFrequency
    (frequencyTick 1000
       (receives Scenario.random_id Scenario.clock true
          [PageScenario.chunk_a; PageScenario.chunk_b] Scenario.connected))
  = 0 + count_newlines
          (join_text (map snd [PageScenario.chunk_a; PageScenario.chunk_b])).
Proof.
  apply (meter_counts Scenario.random_id Scenario.clock true
           [PageScenario.chunk_a; PageScenario.chunk_b] Scenario.connected
           1000 2000); apply Z.leb_le; reflexivity.
Defined.

Lemma received_stream_witness :
  rx_payload
    (logs (appends Scenario.random_id Scenario.clock PageScenario.mixed
             Scenario.connected))
  = rx_payload (logs Scenario.connected)
    ++ received_bytes PageScenario.mixed.
Proof.
  apply (received_stream Scenario.random_id Scenario.clock
           PageScenario.mixed Scenario.connected).
  apply Nat.leb_le. reflexivity.
Defined.

Lemma export_bin_witness :
  Page.exportLogs PageScenario.format_time PageScenario.range_error bin 42
    (appends Scenario.random_id Scenario.clock PageScenario.mixed (initial 0))
  = Ok (Some {| filename := "serial_log_42.bin";
                blob := BinaryBlob [x01; x02; x03; x04]
                          "application/octet-stream" |})
  /\ Page.exportLogs PageScenario.format_time PageScenario.range_error txt 42
       (initial 0) = Ok None.
Proof.
  pose proof (export_bin Scenario.random_id Scenario.clock
                PageScenario.format_time PageScenario.range_error 42)
    as H.
  split.
  - destruct (H (initial 0)) as (_ & _ & Hall).
    apply (Hall PageScenario.mixed 0%Z).
    + discriminate.
    + apply Nat.leb_le. reflexivity.
  - destruct (H (initial 0)) as (Hnone & _). now apply Hnone.
Defined.

Lemma merge_keeps_window_witness :
  join_text (window_text Hex false
               [merged PageScenario.entry_a (data PageScenario.entry_b)
                       (text PageScenario.entry_b)])
  = join_text (window_text Hex false
                 [PageScenario.entry_a; PageScenario.entry_b]).
Proof.
  apply (merge_keeps_window Hex [] PageScenario.entry_a PageScenario.entry_b);
    try reflexivity.
  intros _. split; discriminate.
Defined.

Lemma pause_drops_witness :
  isPaused (togglePause Scenario.random_id Scenario.clock Scenario.connected)
  = true
  /\ incoming Scenario.random_id Scenario.clock false
       [PageScenario.chunk_a; PageScenario.chunk_b]
       (togglePause Scenario.random_id Scenario.clock Scenario.connected)
     = togglePause Scenario.random_id Scenario.clock Scenario.connected.
Proof.
  destruct (pause_drops Scenario.random_id Scenario.clock false
              [PageScenario.chunk_a; PageScenario.chunk_b]
              Scenario.connected eq_refl eq_refl)
    as (H1 & H2 & _).
  split; assumption.
Defined.

Lemma page_invariant_witness :
  exists st',
    steps Scenario.random_id Scenario.clock Scenario.no_fault
      Scenario.locked_error PageScenario.session (initial 0) = Some st'
    /\ page_ok st'.
Proof.
  eexists. split; [reflexivity|].
  destruct (page_invariant Scenario.random_id Scenario.clock
              Scenario.no_fault Scenario.locked_error) as [H0 H].
  apply (H PageScenario.session (initial 0)).
  - repeat constructor.
  - apply H0.
  - reflexivity.
Defined.

Lemma text_send_outcomes_witness :
  snd (App.sendData Scenario.random_id Scenario.clock
         PageScenario.fault_first Scenario.locked_error "AT" Text
         Scenario.connected)
  = [Logged error (send_failed_prefix ++ message PageScenario.device_lost)]
  /\ snd (App.sendData Scenario.random_id Scenario.clock
            Scenario.no_fault Scenario.locked_error "AT" Text
            Scenario.connected)
     = [Write (stringToUint8Array "AT"); Logged tx "AT"].
Proof.
  split.
  - destruct (text_send_outcomes Scenario.random_id Scenario.clock
                PageScenario.fault_first Scenario.locked_error "AT"
                Scenario.connected) as [H _];
      [split; reflexivity|reflexivity|reflexivity|].
    now destruct (H PageScenario.device_lost eq_refl) as (H1 & _).
  - destruct (text_send_outcomes Scenario.random_id Scenario.clock
                Scenario.no_fault Scenario.locked_error "AT"
                Scenario.connected) as [_ H];
      [split; reflexivity|reflexivity|reflexivity|].
    now destruct (H eq_refl) as (H1 & _).
Defined.

Lemma file_send_write_error_witness :
  exists st',
    App.handleFileSend Scenario.random_id Scenario.clock
      PageScenario.fault_fourth Scenario.locked_error 1001 Scenario.file1000
      Scenario.by100 Scenario.quiet Scenario.connected
    = Some (Resolved, st',
            Logged info (file_start_message Scenario.file1000 1000)
              :: schedule_before 0 1000 0
                   (firstn 3 (chunks_of 100 (contents Scenario.file1000)))
              ++ [Logged error
                    (file_failed_prefix
                       ++ message PageScenario.device_lost)])
    /\ writerLocked st' = false.
Proof.
  destruct (file_send_write_error Scenario.random_id Scenario.clock
              PageScenario.fault_fourth Scenario.locked_error
              1001 Scenario.file1000 Scenario.by100 Scenario.quiet
              Scenario.connected 3 PageScenario.device_lost)
    as (st' & E & L & _).
  - split; reflexivity.
  - reflexivity.
  - reflexivity.
  - reflexivity.
  - apply Nat.ltb_lt. vm_compute. reflexivity.
  - apply Nat.ltb_lt. vm_compute. reflexivity.
  - split; [|reflexivity].
    intros [|[|[|i]]] Hi; try reflexivity. lia.
  - exists st'. split; [exact E|exact L].
Defined.

Lemma file_send_never_ends_witness :
  App.handleFileSend Scenario.random_id Scenario.clock Scenario.no_fault
    Scenario.locked_error 50 Scenario.file1000 PageScenario.by0
    Scenario.quiet Scenario.connected = None.
Proof.
  apply (file_send_never_ends Scenario.random_id Scenario.clock
           Scenario.no_fault Scenario.locked_error).
  - reflexivity.
  - split; reflexivity.
  - reflexivity.
  - reflexivity.
  - apply Nat.ltb_lt. vm_compute. reflexivity.
  - apply Z.leb_le. reflexivity.
Defined.

Lemma empty_file_send_witness :
  exists st',
    App.handleFileSend Scenario.random_id Scenario.clock
      PageScenario.fault_first Scenario.locked_error 1
      PageScenario.empty_file PageScenario.by0 Scenario.quiet
      Scenario.connected
    = Some (Resolved, st',
            [Logged info (file_start_message PageScenario.empty_file 0);
             Logged info file_done_message])
    /\ writerLocked st' = false /\ writeCalls st' = 0.
Proof.
  apply (empty_file_send Scenario.random_id Scenario.clock
           PageScenario.fault_first Scenario.locked_error 0
           PageScenario.empty_file PageScenario.by0 Scenario.quiet
           Scenario.connected); try reflexivity.
  split; reflexivity.
Defined.

Lemma terminator_option_witness :
  writes_of
    (snd (handleSendClick Scenario.random_id Scenario.clock
            Scenario.no_fault Scenario.locked_error
            (setAddNewline true PageScenario.panel) Scenario.connected))
  = writes_of
      (snd (handleSendClick Scenario.random_id Scenario.clock
              Scenario.no_fault Scenario.locked_error
              (setAddNewline false PageScenario.panel) Scenario.connected))
  /\ writes_of
       (snd (handleSendClick Scenario.random_id Scenario.clock
               Scenario.no_fault Scenario.locked_error
               (setAddNewline true PageScenario.text_panel)
               Scenario.connected))
     = [stringToUint8Array "AT" ++ [x0d; x0a]].
Proof.
  split.
  - apply (proj1 (terminator_option Scenario.random_id Scenario.clock
                    Scenario.no_fault Scenario.locked_error
                    PageScenario.panel Scenario.connected)).
    reflexivity.
  - apply (proj1 (proj2 (terminator_option Scenario.random_id Scenario.clock
                           Scenario.no_fault Scenario.locked_error
                           PageScenario.text_panel Scenario.connected)));
      try reflexivity.
    split; reflexivity.
Defined.

Lemma file_button_witness :
  handleFileChange Scenario.random_id Scenario.clock Scenario.no_fault
    Scenario.locked_error 1001 (Some Scenario.file1000) Scenario.quiet
    PageScenario.panel PageScenario.writer_held
  = Some (setSending true (of_int 0) PageScenario.panel,
          PageScenario.writer_held, []).
Proof.
  apply (proj1 (proj2 (proj2
           (file_button Scenario.random_id Scenario.clock Scenario.no_fault
              Scenario.locked_error 1001 Scenario.file1000 Scenario.quiet
              PageScenario.panel PageScenario.writer_held))));
    try reflexivity.
  split; reflexivity.
Defined.

Lemma hex_echo_witness :
  snd (App.sendData Scenario.random_id Scenario.clock Scenario.no_fault
         Scenario.locked_error (uint8ArrayToHex [x00; x7f; xff]) Hex
         Scenario.connected)
  = [Write [x00; x7f; xff]; Logged tx "00 7F FF"].
Proof.
  apply (hex_echo Scenario.random_id Scenario.clock Scenario.no_fault
           Scenario.locked_error [x00; x7f; xff] Scenario.connected);
    try reflexivity.
  split; reflexivity.
Defined.

Lemma reads_reach_store_witness :
  rx_payload
    (logs (incoming Scenario.random_id Scenario.clock true
             [PageScenario.chunk_a; PageScenario.chunk_b]
             Scenario.connected))
  = rx_payload (logs Scenario.connected)
    ++ List.concat (map fst [PageScenario.chunk_a; PageScenario.chunk_b]).
Proof.
  apply (reads_reach_store Scenario.random_id Scenario.clock true
           [PageScenario.chunk_a; PageScenario.chunk_b] Scenario.connected).
  - reflexivity.
  - apply Nat.leb_le. reflexivity.
Defined.

Lemma after_disconnect_witness :
  (fst (App.disconnect Scenario.random_id Scenario.clock Scenario.connected)
   = Resolved
   /\ connection
        (snd (App.disconnect Scenario.random_id Scenario.clock
                Scenario.connected))
      = Disconnected)
  /\ (exists e,
        App.disconnect Scenario.random_id Scenario.clock
          PageScenario.stream_lost
        = (Rejected e, setKeepReadingRef false PageScenario.stream_lost))
  /\ connection
       (snd (App.disconnect Scenario.random_id Scenario.clock
               PageScenario.stream_lost))
     = Connected.
Proof.
  split; [|split].
  - destruct (after_disconnect Scenario.random_id Scenario.clock
                Scenario.no_fault Scenario.locked_error "hi" Text 1001
                Scenario.file1000 Scenario.by100 Scenario.quiet
                Scenario.connected) as (H & _).
    destruct H as (R & _ & C & _); [discriminate|].
    split; [exact R|exact C].
  - apply (proj1 (proj2 (after_disconnect Scenario.random_id Scenario.clock
                           Scenario.no_fault Scenario.locked_error "hi" Text
                           1001 Scenario.file1000 Scenario.by100
                           Scenario.quiet PageScenario.stream_lost))).
    reflexivity.
  - reflexivity.
Defined.

Lemma read_loop_silent_witness :
  let st' := Page.readLoop_steps Scenario.random_id Scenario.clock false
               PageScenario.troubled PageScenario.noted in
  same_connection PageScenario.noted st'
  /\ connection st' = connection PageScenario.noted
  /\ notes_of (logs st') = notes_of (logs PageScenario.noted).
Proof.
  apply (read_loop_silent Scenario.random_id Scenario.clock false
           PageScenario.troubled PageScenario.noted).
  apply Nat.leb_le. reflexivity.
Defined.

Lemma file_send_ignores_page_witness :
  exists st1 st2 trace,
    App.handleFileSend Scenario.random_id Scenario.clock Scenario.no_fault
      Scenario.locked_error 1001 Scenario.file1000 Scenario.by100
      Scenario.quiet Scenario.connected
    = Some (Resolved, st1, trace)
    /\ App.handleFileSend Scenario.random_id Scenario.clock Scenario.no_fault
         Scenario.locked_error 1001 Scenario.file1000 Scenario.by100
         PageScenario.disconnect_after_2 Scenario.connected
       = Some (Resolved, st2, trace)
    /\ List.last trace (Sleep 0) = Logged info file_done_message.
Proof.
  apply (file_send_ignores_page Scenario.random_id Scenario.clock
           Scenario.no_fault Scenario.locked_error 1001 Scenario.file1000
           Scenario.by100 Scenario.quiet PageScenario.disconnect_after_2
           Scenario.connected).
  - reflexivity.
  - split; reflexivity.
  - reflexivity.
  - reflexivity.
  - reflexivity.
  - apply Nat.ltb_lt. vm_compute. reflexivity.
Defined.

End Instances.
